(** * Document lookup and fork creation (routerlicious/src/alfred/storage.ts)

    A shallow embedding of [getDocument], [getOrCreateDocument], [getForks],
    [createFork], [getOrCreateObject] and [sendIntegrateStream].  The three
    collaborators the module drives (the git manager of a tenant, the Mongo
    collection of document records and the message producer) are kept in one
    explicit [World]; every [async] function becomes a function from a world
    to an outcome and the world it leaves behind. *)

From stdpp Require Import gmap strings list fin_maps.
From Stdlib Require Import ZArith.

Open Scope Z_scope.
Open Scope string_scope.
Open Scope list_scope.

(** ** JavaScript values

    Document records are read through [collection<any>], the attributes blob
    is whatever [JSON.parse] yields, so both are untyped values. *)

#[local] Set Warnings "-register-all".

Inductive value : Type :=
| VUndefined
| VNull
| VBool (b : bool)
| VNum (n : Z)
| VStr (s : string)
| VArr (items : list value)
| VObj (fields : list (string * value)).

(** First binding of [k] in the fields of an object literal. *)
Fixpoint assoc (k : string) (fs : list (string * value)) : option value :=
  match fs with
  | [] => None
  | (k', v) :: fs' => if decide (k = k') then Some v else assoc k fs'
  end.

(** [fs] with the field [k] set to [v]: overwritten in place, or added last. *)
Fixpoint assoc_set (k : string) (v : value) (fs : list (string * value))
  : list (string * value) :=
  match fs with
  | [] => [(k, v)]
  | (k', v') :: fs' =>
      if decide (k = k') then (k, v) :: fs' else (k', v') :: assoc_set k v fs'
  end.

(** [o.k] where it cannot throw: an own field of an object, [undefined]
    for a field the object lacks and for values that carry no fields. *)
Definition prop (o : value) (k : string) : value :=
  match o with
  | VObj fs => default VUndefined (assoc k fs)
  | _ => VUndefined
  end.

Definition set_prop (k : string) (v : value) (o : value) : value :=
  match o with
  | VObj fs => VObj (assoc_set k v fs)
  | _ => o
  end.

(** Truthiness, as the [||] operator tests it. *)
Definition truthy (v : value) : bool :=
  match v with
  | VUndefined | VNull => false
  | VBool b => b
  | VNum n => negb (n =? 0)%Z
  | VStr s => negb (bool_decide (s = ""))
  | VArr _ | VObj _ => true
  end.

Definition is_str (s : string) (v : value) : bool :=
  match v with
  | VStr s' => bool_decide (s = s')
  | _ => false
  end.

(** ** Collaborator data *)

(** The filter [{ documentId, tenantId }] handed to the collection. *)
Record Key := { documentId : string; tenantId : string }.

(** A git ref as the git manager returns it; only the fields the module
    reads are kept. *)
Record IRefObject := { sha : string }.
Record IRef := { ref : string; object : IRefObject }.

(** A blob as [getContent] returns it: [content] is base64 text. *)
Record IBlob := { content : string }.

(** The result of [findOrCreate]. *)
Record FindOrCreate := { existing : bool; found : value }.

(** Calls that cross the boundary of the module, with their arguments. *)
Inductive Call : Type :=
| CGetTenant (tenant : string)
| CGetRef (tenant id : string)
| CGetContent (tenant commit path : string)
| CUpsertRef (tenant name commit : string)
| CGetDatabase
| CFindOne (coll : string) (k : Key)
| CFindOrCreate (coll : string) (k : Key) (dflt : value)
| CInsertOne (coll : string) (doc : value)
| CUpdate (coll : string) (k : Key) (set : option (list (string * value)))
          (addToSet : option (list (string * value)))
| CSend (message key : string).

Inductive error : Type :=
| TypeError (property : string)
| SyntaxError
| Unavailable (c : Call)
| NotFound (commit path : string)
| DuplicateKey (doc : value).

(** ** The world *)

Record World := {
  (* git storage, one namespace per tenant: (tenant, ref name) to commit sha *)
  refs : gmap (string * string) string;
  (* (tenant, commit sha, path) to the base64 content of the blob *)
  blobs : gmap (string * string * string) string;
  (* Mongo: collection name to its documents, oldest first *)
  collections : gmap string (list value);
  (* messages accepted by the producer with their keys, oldest first *)
  sent : list (string * string);
  (* every boundary call issued so far, oldest first *)
  trace : list Call;
  (* the lines written to the log, oldest first *)
  logged : list string;
  (* the calls that fail with a transport error *)
  down : Call -> bool;
  (* the names moniker.choose() draws, and how many were drawn *)
  moniker : nat -> string;
  chosen : nat;
  (* the readings of Date.now(), and how many were taken *)
  clock : nat -> Z;
  ticks : nat
}.

Definition set_refs (f : gmap (string * string) string -> gmap (string * string) string)
  (w : World) : World :=
  {| refs := f (refs w); blobs := blobs w; collections := collections w;
     sent := sent w; trace := trace w; logged := logged w; down := down w;
     moniker := moniker w; chosen := chosen w; clock := clock w; ticks := ticks w |}.

Definition set_collections (f : gmap string (list value) -> gmap string (list value))
  (w : World) : World :=
  {| refs := refs w; blobs := blobs w; collections := f (collections w);
     sent := sent w; trace := trace w; logged := logged w; down := down w;
     moniker := moniker w; chosen := chosen w; clock := clock w; ticks := ticks w |}.

Definition set_sent (f : list (string * string) -> list (string * string))
  (w : World) : World :=
  {| refs := refs w; blobs := blobs w; collections := collections w;
     sent := f (sent w); trace := trace w; logged := logged w; down := down w;
     moniker := moniker w; chosen := chosen w; clock := clock w; ticks := ticks w |}.

Definition record_call (c : Call) (w : World) : World :=
  {| refs := refs w; blobs := blobs w; collections := collections w;
     sent := sent w; trace := trace w ++ [c]; logged := logged w;
     down := down w;
     moniker := moniker w; chosen := chosen w; clock := clock w; ticks := ticks w |}.

Definition log_line (line : string) (w : World) : World :=
  {| refs := refs w; blobs := blobs w; collections := collections w;
     sent := sent w; trace := trace w; logged := logged w ++ [line]; down := down w;
     moniker := moniker w; chosen := chosen w; clock := clock w; ticks := ticks w |}.

Definition draw_name (w : World) : World :=
  {| refs := refs w; blobs := blobs w; collections := collections w;
     sent := sent w; trace := trace w; logged := logged w; down := down w;
     moniker := moniker w; chosen := S (chosen w); clock := clock w; ticks := ticks w |}.

Definition tick (w : World) : World :=
  {| refs := refs w; blobs := blobs w; collections := collections w;
     sent := sent w; trace := trace w; logged := logged w; down := down w;
     moniker := moniker w; chosen := chosen w; clock := clock w; ticks := S (ticks w) |}.

(** The documents of a collection; a collection never written to is empty. *)
Definition documents (coll : string) (w : World) : list value :=
  default [] (collections w !! coll).

(** ** Promises

    An [async] function is run to completion on the world it is given.  A
    promise that has been issued but not yet awaited is its settled outcome:
    the effects are already in the world, the rejection is not yet thrown. *)

Definition Outcome (A : Type) : Type := (error + A)%type.
Definition M (A : Type) : Type := World -> Outcome A * World.

Definition ret {A} (a : A) : M A := fun w => (inr a, w).
Definition throw {A} (e : error) : M A := fun w => (inl e, w).

Definition bind {A B} (m : M A) (k : A -> M B) : M B :=
  fun w =>
    match m w with
    | (inr a, w') => k a w'
    | (inl e, w') => (inl e, w')
    end.

Notation "'let*' x ':=' m 'in' k" := (bind m (fun x => k))
  (at level 10, x pattern, m at level 100, k at level 200).

(** Issue a call without awaiting it. *)
Definition start {A} (m : M A) : M (Outcome A) :=
  fun w => let (r, w') := m w in (inr r, w').

(** [await p]. *)
Definition await {A} (p : Outcome A) : M A := fun w => (p, w).

(** [Promise.all([p, q])] of two issued promises. *)
Definition Promise_all2 {A B} (p : Outcome A) (q : Outcome B) : Outcome (A * B) :=
  match p, q with
  | inr a, inr b => inr (a, b)
  | inl e, _ => inl e
  | _, inl e => inl e
  end.

(** A boundary call: recorded in the trace, rejected when the transport is
    down for it, otherwise carried out by [body]. *)
Definition invoke {A} (c : Call) (body : M A) : M A :=
  fun w =>
    let w1 := record_call c w in
    if down w c then (inl (Unavailable c), w1) else body w1.

(** [o.k] as an expression: reading a field of [null] or [undefined] throws. *)
Definition get_prop (o : value) (k : string) : M value :=
  match o with
  | VUndefined | VNull => throw (TypeError k)
  | _ => ret (prop o k)
  end.

Definition moniker_choose : M string :=
  fun w => (inr (moniker w (chosen w)), draw_name w).

Definition Date_now : M Z :=
  fun w => (inr (clock w (ticks w)), tick w).

Definition winston_info (line : string) : M unit :=
  fun w => (inr tt, log_line line w).

(** ** The collaborators

    Their code is outside this module; each is written from its contract. *)

(** Modelled from the spec: tenant-to-storage resolution,
    [tenantManager.getTenant(tenantId)].  The tenant handle stands for its
    [gitManager]; the git operations below take it as their namespace. *)
Definition getTenant (tenantId : string) : M string :=
  invoke (CGetTenant tenantId) (ret tenantId).

(** Modelled from the spec: [getHeadRef(documentId) -> ref|null], the
    [gitManager.getRef] of the VersionStore contract. *)
Definition getRef (tenant id : string) : M (option IRef) :=
  invoke (CGetRef tenant id)
    (fun w =>
       (inr ((fun commit => {| ref := id; object := {| sha := commit |} |})
               <$> refs w !! (tenant, id)), w)).

(** Modelled from the spec: [getBlobContent(commitSha, path) -> bytes], the
    [gitManager.getContent]; a path the commit does not hold is an error. *)
Definition getContent (tenant commit path : string) : M IBlob :=
  invoke (CGetContent tenant commit path)
    (fun w =>
       match blobs w !! (tenant, commit, path) with
       | Some text => (inr {| content := text |}, w)
       | None => (inl (NotFound commit path), w)
       end).

(** Modelled from the spec: [createOrUpdateRef(name, targetSha) -> ref], the
    [gitManager.upsertRef]. *)
Definition upsertRef (tenant name commit : string) : M IRef :=
  invoke (CUpsertRef tenant name commit)
    (fun w =>
       (inr {| ref := name; object := {| sha := commit |} |},
        set_refs (insert (tenant, name) commit) w)).

(** Modelled from the spec: [mongoManager.getDatabase()]; the database
    handle carries no data of its own, [db.collection(name)] is the name. *)
Definition getDatabase : M unit :=
  invoke CGetDatabase (ret tt).

(** A record answers to a key when both of its key fields are these strings. *)
Definition matches (k : Key) (doc : value) : bool :=
  is_str (documentId k) (prop doc "documentId")
  && is_str (tenantId k) (prop doc "tenantId").

(** The primary key of a record, when it has one. *)
Definition key_of (doc : value) : option Key :=
  match prop doc "documentId", prop doc "tenantId" with
  | VStr d, VStr t => Some {| documentId := d; tenantId := t |}
  | _, _ => None
  end.

(** Modelled from the spec: [findOne(tenantId, documentId) -> record|null]. *)
Definition findOne (coll : string) (k : Key) : M value :=
  invoke (CFindOne coll k)
    (fun w => (inr (default VNull (List.find (matches k) (documents coll w))), w)).

(** Modelled from the spec: [findOrCreate(key, defaultRecord) ->
    {existing, value}], which returns the existing record if present and
    otherwise stores the default record and returns it. *)
Definition findOrCreate (coll : string) (k : Key) (dflt : value) : M FindOrCreate :=
  invoke (CFindOrCreate coll k dflt)
    (fun w =>
       match List.find (matches k) (documents coll w) with
       | Some doc => (inr {| existing := true; found := doc |}, w)
       | None =>
           (inr {| existing := false; found := dflt |},
            set_collections (insert coll (documents coll w ++ [dflt])) w)
       end).

(** Modelled from the spec: [insertOne(record) -> ok|duplicate-key-error],
    the key being (documentId, tenantId). *)
Definition insertOne (coll : string) (doc : value) : M unit :=
  invoke (CInsertOne coll doc)
    (fun w =>
       match key_of doc with
       | Some k =>
           if existsb (matches k) (documents coll w)
           then (inl (DuplicateKey doc), w)
           else (inr tt, set_collections (insert coll (documents coll w ++ [doc])) w)
       | None =>
           (inr tt, set_collections (insert coll (documents coll w ++ [doc])) w)
       end).

(** One field append: the value goes to the end of the array held by the
    field; a record without the field gets a one-element array. *)
Definition append_prop (doc : value) (kv : string * value) : value :=
  match prop doc kv.1 with
  | VArr items => set_prop kv.1 (VArr (items ++ [kv.2])) doc
  | VUndefined => set_prop kv.1 (VArr [kv.2]) doc
  | _ => doc
  end.

Definition set_props (doc : value) (kv : string * value) : value :=
  set_prop kv.1 kv.2 doc.

Definition apply_update (set addToSet : option (list (string * value)))
  (doc : value) : value :=
  fold_left append_prop (default [] addToSet)
    (fold_left set_props (default [] set) doc).

(** The first record that satisfies [P] rewritten by [f]. *)
Fixpoint update_first (P : value -> bool) (f : value -> value)
  (docs : list value) : list value :=
  match docs with
  | [] => []
  | d :: ds => if P d then f d :: ds else d :: update_first P f ds
  end.

(** Modelled from the spec: [update(key, fieldSets, fieldAppends) -> ok],
    a field-level update of the record under the key; with no such record
    there is nothing to update. *)
Definition update (coll : string) (k : Key)
  (set addToSet : option (list (string * value))) : M unit :=
  invoke (CUpdate coll k set addToSet)
    (fun w =>
       (inr tt,
        set_collections
          (insert coll (update_first (matches k) (apply_update set addToSet)
                          (documents coll w))) w)).

(** Modelled from the spec: [send(partitionKey, envelope) -> ack|error]. *)
Definition send (message key : string) : M unit :=
  invoke (CSend message key)
    (fun w => (inr tt, set_sent (fun l => l ++ [(message, key)]) w)).

(** Modelled from the spec: the [type] of the wire envelope,
    [core.RawOperationType]. *)
Definition RawOperationType : string := "RawOperation".

(** Modelled from the spec: the [operation.type] of the wire envelope,
    [api.Fork]. *)
Definition Fork : string := "Fork".

(** ** storage.ts *)

Definition StartingSequenceNumber : Z := 0.

(** A ref as [JSON.stringify] is given it for the log line. *)
Definition IRef_value (head : option IRef) : value :=
  match head with
  | None => VNull
  | Some h =>
      VObj [("ref", VStr (ref h)); ("object", VObj [("sha", VStr (sha (object h)))])]
  end.

Section Storage.

(** The JavaScript runtime is a parameter: [JSON.parse] ([None] for the
    texts on which it throws a SyntaxError), [JSON.stringify], and
    [Buffer.from(text, "base64").toString("utf-8")]. *)
Variable JSON_parse : string -> option value.
Variable JSON_stringify : value -> string.
Variable Buffer_base64_utf8 : string -> string.

Definition parse (text : string) : M value :=
  match JSON_parse text with
  | Some v => ret v
  | None => throw SyntaxError
  end.

Definition getDocument (documentsCollectionName tenantId documentId : string)
  : M value :=
  let* db := getDatabase in
  findOne documentsCollectionName
    {| documentId := documentId; tenantId := tenantId |}.

(** The record [getOrCreateObject] hands to [findOrCreate]. *)
Definition default_record (tenantId documentId : string) (now : Z) : value :=
  VObj [("branchMap", VUndefined);
        ("clients", VUndefined);
        ("createTime", VNum now);
        ("documentId", VStr documentId);
        ("forks", VArr []);
        ("logOffset", VUndefined);
        ("parent", VNull);
        ("sequenceNumber", VNum StartingSequenceNumber);
        ("tenantId", VStr tenantId)].

Definition getOrCreateObject (documentsCollectionName tenantId documentId : string)
  : M FindOrCreate :=
  let* db := getDatabase in
  let* now := Date_now in
  let* result :=
    findOrCreate documentsCollectionName
      {| documentId := documentId; tenantId := tenantId |}
      (default_record tenantId documentId now) in
  ret result.

Definition getOrCreateDocument (documentsCollectionName tenantId documentId : string)
  : M FindOrCreate :=
  let getOrCreateP :=
    getOrCreateObject documentsCollectionName tenantId documentId in
  getOrCreateP.

Definition getForks (documentsCollectionName tenantId documentId : string)
  : M value :=
  let* db := getDatabase in
  let* document :=
    findOne documentsCollectionName
      {| documentId := documentId; tenantId := tenantId |} in
  let* forks := get_prop document "forks" in
  ret (if truthy forks then forks else VArr []).

(** The [contents] of the integration message. *)
Definition fork_contents (tenantId : string) (sequenceNumber minSequenceNumber : value)
  (name : string) : value :=
  VObj [("documentId", VStr name);
        ("minSequenceNumber", minSequenceNumber);
        ("sequenceNumber", sequenceNumber);
        ("tenantId", VStr tenantId)].

Definition integrateMessage (tenantId id : string)
  (sequenceNumber minSequenceNumber : value) (name : string) (now : Z) : value :=
  VObj [("clientId", VNull);
        ("documentId", VStr id);
        ("operation",
          VObj [("clientSequenceNumber", VNum (-1));
                ("contents",
                  fork_contents tenantId sequenceNumber minSequenceNumber name);
                ("referenceSequenceNumber", VNum (-1));
                ("traces", VArr []);
                ("type", VStr Fork)]);
        ("tenantId", VStr tenantId);
        ("timestamp", VNum now);
        ("type", VStr RawOperationType);
        ("user", VNull)].

Definition sendIntegrateStream (tenantId id : string)
  (sequenceNumber minSequenceNumber : value) (name : string) : M unit :=
  let* now := Date_now in
  send (JSON_stringify
          (integrateMessage tenantId id sequenceNumber minSequenceNumber name now))
       id.

(** The record [createFork] inserts for the fork. *)
Definition fork_record (tenantId id name : string)
  (sequenceNumber minimumSequenceNumber : value) (now : Z) : value :=
  VObj [("branchMap", VUndefined);
        ("clients", VUndefined);
        ("createTime", VNum now);
        ("documentId", VStr name);
        ("forks", VArr []);
        ("logOffset", VUndefined);
        ("parent",
          VObj [("documentId", VStr id);
                ("minimumSequenceNumber", minimumSequenceNumber);
                ("sequenceNumber", sequenceNumber);
                ("tenantId", VStr tenantId)]);
        ("sequenceNumber", sequenceNumber);
        ("tenantId", VStr tenantId)].

(** The entry [createFork] adds to the [forks] of the parent. *)
Definition fork_entry (tenantId name : string) : value :=
  VObj [("documentId", VStr name); ("tenantId", VStr tenantId)].

(** The branch of [createFork] on the head ref: the pair
    (sequenceNumber, minimumSequenceNumber). *)
Definition sequencing (tenant name : string) (head : option IRef)
  : M (value * value) :=
  match head with
  | None =>
      let minimumSequenceNumber := VNum StartingSequenceNumber in
      let sequenceNumber := VNum StartingSequenceNumber in
      ret (sequenceNumber, minimumSequenceNumber)
  | Some h =>
      let* attributesContentP :=
        start (getContent tenant (sha (object h)) ".attributes") in
      let* branchP := start (upsertRef tenant name (sha (object h))) in
      let* (attributesContent, _) :=
        await (Promise_all2 attributesContentP branchP) in
      let attributesJson := Buffer_base64_utf8 (content attributesContent) in
      let* attributes := parse attributesJson in
      let* minimumSequenceNumber := get_prop attributes "minimumSequenceNumber" in
      let* sequenceNumber := get_prop attributes "sequenceNumber" in
      ret (sequenceNumber, minimumSequenceNumber)
  end.

Definition createFork (documentsCollectionName tenantId id : string) : M string :=
  let* name := moniker_choose in
  let* tenant := getTenant tenantId in
  let* head := getRef tenant id in
  let* _ := winston_info (JSON_stringify (IRef_value head)) in
  let* (sequenceNumber, minimumSequenceNumber) := sequencing tenant name head in
  let* db := getDatabase in
  let* now := Date_now in
  let* insertFork :=
    start (insertOne documentsCollectionName
             (fork_record tenantId id name sequenceNumber minimumSequenceNumber now)) in
  let* updateParent :=
    update documentsCollectionName
      {| documentId := id; tenantId := tenantId |}
      None
      (Some [("forks", fork_entry tenantId name)]) in
  let* _ := await (Promise_all2 insertFork (inr updateParent)) in
  let* _ :=
    sendIntegrateStream tenantId id sequenceNumber minimumSequenceNumber name in
  ret name.

(** The boundary calls of the branch on the head ref. *)
Definition head_calls (tenant name : string) (head : option string) : list Call :=
  match head with
  | None => []
  | Some commit =>
      [CGetContent tenant commit ".attributes"; CUpsertRef tenant name commit]
  end.

(** The boundary calls of a run of [createFork] that reaches its [return],
    in the order they are issued. *)
Definition fork_calls (documentsCollectionName tenantId id name : string)
  (head : option string) (sequenceNumber minimumSequenceNumber : value)
  (createTime timestamp : Z) : list Call :=
  [CGetTenant tenantId; CGetRef tenantId id]
  ++ head_calls tenantId name head
  ++ [CGetDatabase;
      CInsertOne documentsCollectionName
        (fork_record tenantId id name sequenceNumber minimumSequenceNumber createTime);
      CUpdate documentsCollectionName
        {| documentId := id; tenantId := tenantId |}
        None
        (Some [("forks", fork_entry tenantId name)]);
      CSend
        (JSON_stringify
           (integrateMessage tenantId id sequenceNumber minimumSequenceNumber
              name timestamp))
        id].

(** What a run of [createFork] from [w] to [w'] that returned a name has
    done, with the sequencing state [sn], [msn] it derived. *)
Record Forked (coll t id : string) (w w' : World) (sn msn : value) : Prop := {
  fk_derived :
    match refs w !! (t, id) with
    | None => sn = VNum StartingSequenceNumber /\ msn = VNum StartingSequenceNumber
    | Some commit =>
        exists text attributes,
          blobs w !! (t, commit, ".attributes") = Some text /\
          JSON_parse (Buffer_base64_utf8 text) = Some attributes /\
          attributes <> VNull /\ attributes <> VUndefined /\
          sn = prop attributes "sequenceNumber" /\
          msn = prop attributes "minimumSequenceNumber"
    end;
  fk_refs :
    refs w' =
      match refs w !! (t, id) with
      | None => refs w
      | Some commit => <[(t, moniker w (chosen w)) := commit]> (refs w)
      end;
  fk_blobs : blobs w' = blobs w;
  fk_fresh :
    existsb (matches {| documentId := moniker w (chosen w); tenantId := t |})
      (documents coll w) = false;
  fk_collections :
    collections w' =
      <[coll :=
          update_first (matches {| documentId := id; tenantId := t |})
            (apply_update None
               (Some [("forks", fork_entry t (moniker w (chosen w)))]))
            (documents coll w
               ++ [fork_record t id (moniker w (chosen w)) sn msn
                     (clock w (ticks w))])]>
        (collections w);
  fk_sent :
    sent w' =
      sent w
        ++ [(JSON_stringify
               (integrateMessage t id sn msn (moniker w (chosen w))
                  (clock w (S (ticks w)))), id)];
  fk_trace :
    trace w' =
      trace w
        ++ fork_calls coll t id (moniker w (chosen w)) (refs w !! (t, id)) sn msn
             (clock w (ticks w)) (clock w (S (ticks w)));
  fk_up :
    Forall (fun c => down w c = false)
      (fork_calls coll t id (moniker w (chosen w)) (refs w !! (t, id)) sn msn
         (clock w (ticks w)) (clock w (S (ticks w))));
  fk_down : down w' = down w;
  fk_chosen : chosen w' = S (chosen w)
}.

(** The world a run of [createFork] that returned has built on [w1], the
    world the branch on the head ref has left. *)
Definition persisted (coll t id name : string) (sn msn : value) (w1 : World)
  : World :=
  let fork := fork_record t id name sn msn (clock w1 (ticks w1)) in
  let entry := Some [("forks", fork_entry t name)] in
  let key := {| documentId := id; tenantId := t |} in
  let message :=
    JSON_stringify (integrateMessage t id sn msn name (clock w1 (S (ticks w1)))) in
  set_sent (fun l => l ++ [(message, id)])
    (record_call (CSend message id)
       (tick
          (set_collections
             (insert coll
                (update_first (matches key) (apply_update None entry)
                   (documents coll w1 ++ [fork])))
             (record_call (CUpdate coll key None entry)
                (set_collections (insert coll (documents coll w1 ++ [fork]))
                   (record_call (CInsertOne coll fork)
                      (tick (record_call CGetDatabase w1)))))))).

End Storage.

(** ** Properties of runs *)

(** Which boundary calls resolve a ref, and which commit a call reads from
    or points a ref at. *)
Definition resolves_ref (c : Call) : bool :=
  match c with
  | CGetRef _ _ => true
  | _ => false
  end.

Definition commit_used (c : Call) : option string :=
  match c with
  | CGetContent _ commit _ => Some commit
  | CUpsertRef _ _ commit => Some commit
  | _ => None
  end.

(** Whether a call reads from a commit or points a ref at one. *)
Definition uses_commit (c : Call) : bool :=
  match commit_used c with
  | Some _ => true
  | None => false
  end.

(** A call that has nothing to do with refs or commits. *)
Definition off_git (c : Call) : Prop :=
  resolves_ref c = false /\ uses_commit c = false.

(** [emits P m]: whatever the world, the boundary calls [m] adds to the
    trace all satisfy [P]. *)
Definition emits {A} (P : Call -> Prop) (m : M A) : Prop :=
  forall w, exists calls, trace (m w).2 = trace w ++ calls /\ Forall P calls.

(** What the calls of [createFork] after the ref resolution have to do with
    refs and commits: none resolves a ref, and a commit is only ever the one
    the resolution returned. *)
Definition after_resolution (head : option string) (c : Call) : Prop :=
  resolves_ref c = false
  /\ forall commit, commit_used c = Some commit -> head = Some commit.

(** ** The rest of storage.ts: versions

    [getLatestVersion], [getVersions] and [getVersion] wrap two reads of the
    git manager in hand-made promises. *)

(** [p.then(onFulfilled, onRejected)] inside [new Promise((resolve, reject)
    => ...)]: the promise settles the way the callback that runs settles it. *)
Definition then_ {A B} (p : M A) (onFulfilled : A -> M B)
  (onRejected : error -> M B) : M B :=
  fun w =>
    match p w with
    | (inr a, w') => onFulfilled a w'
    | (inl e, w') => onRejected e w'
    end.

Definition resolve {A} (a : A) : M A := ret a.
Definition reject {A} (e : error) : M A := throw e.

Section Versions.

(** The commit types of gitresources and the two reads of the git manager,
    [gitManager.getCommits(documentId, count)] and [gitManager.getCommit(sha)],
    are parameters; the tenant is the namespace as before. *)
Variables ICommitDetails ICommit : Type.
Variable getCommits : string -> string -> Z -> M (list ICommitDetails).
Variable getCommit : string -> string -> M ICommit.

Definition getVersions (tenantId documentId : string) (count : Z)
  : M (list ICommitDetails) :=
  then_ (getTenant tenantId)
    (fun tenant =>
       then_ (getCommits tenant documentId count)
         (fun commits => resolve commits)
         (fun err => reject err))
    (fun error => reject error).

Definition getLatestVersion (tenantId documentId : string)
  : M (option ICommitDetails) :=
  then_ (getVersions tenantId documentId 1)
    (fun commits =>
       if (0 <? Z.of_nat (length commits))%Z
       then resolve (head commits)
       else resolve None)
    (fun err => reject err).

Definition getVersion (tenantId documentId sha : string) : M ICommit :=
  then_ (getTenant tenantId)
    (fun tenant =>
       then_ (getCommit tenant sha)
         (fun commit => resolve commit)
         (fun err => reject err))
    (fun error => reject error).

End Versions.

(** ** Invariants of runs *)

(** [keeps R m]: every run of [m], returned or failed, leaves a world
    related by [R] to the one it started in. *)
Definition keeps {A} (R : World -> World -> Prop) (m : M A) : Prop :=
  forall w, R w (m w).2.

(** [fails_within R m]: a run of [m] that fails leaves a world related by
    [R] to the one it started in. *)
Definition fails_within {A} (R : World -> World -> Prop) (m : M A) : Prop :=
  forall w e w', m w = (inl e, w') -> R w w'.

(** A relation on worlds that is a preorder and does not look at the
    trace, the log, the names drawn or the clock. *)
Record Quiet (R : World -> World -> Prop) : Prop := {
  quiet_refl : forall w, R w w;
  quiet_trans : forall w1 w2 w3, R w1 w2 -> R w2 w3 -> R w1 w3;
  quiet_record_call : forall c w, R w (record_call c w);
  quiet_log_line : forall line w, R w (log_line line w);
  quiet_draw_name : forall w, R w (draw_name w);
  quiet_tick : forall w, R w (tick w)
}.

(** Nothing of the stores or of the producer has changed. *)
Definition same_stores (w w' : World) : Prop :=
  refs w' = refs w /\ blobs w' = blobs w
  /\ collections w' = collections w /\ sent w' = sent w.

(** The producer has been given nothing new. *)
Definition same_sent (w w' : World) : Prop := sent w' = sent w.

(** Git is as it was but for the ref [(tenant, name)]. *)
Definition same_git_but (tenant name : string) (w w' : World) : Prop :=
  blobs w' = blobs w
  /\ forall key, key <> (tenant, name) -> refs w' !! key = refs w !! key.

(** Every record is still found under its key, with every field but
    [forks] as it was. *)
Definition records_kept (w w' : World) : Prop :=
  forall coll k doc,
    List.find (matches k) (documents coll w) = Some doc ->
    exists doc',
      List.find (matches k) (documents coll w') = Some doc'
      /\ forall field, field <> "forks" -> prop doc' field = prop doc field.

(** Git and the producer are as they were, and so is every lookup but the
    one under [k] in [coll]. *)
Definition same_but_record (coll : string) (k : Key) (w w' : World) : Prop :=
  refs w' = refs w /\ blobs w' = blobs w /\ sent w' = sent w
  /\ forall coll' k',
       coll' <> coll \/ k' <> k ->
       List.find (matches k') (documents coll' w')
       = List.find (matches k') (documents coll' w).

(** Every boundary call but a send goes through. *)
Definition stores_up (w : World) : Prop :=
  forall c, (forall message key, c <> CSend message key) -> down w c = false.

Section Outcomes.

Variable JSON_parse : string -> option value.
Variable JSON_stringify : value -> string.
Variable Buffer_base64_utf8 : string -> string.

(** [createFork] from "Get access to Mongo" on, given the name and the
    sequencing state. *)
Definition persist_and_announce (documentsCollectionName tenantId id name : string)
  (sequenceNumber minimumSequenceNumber : value) : M string :=
  let* db := getDatabase in
  let* now := Date_now in
  let* insertFork :=
    start (insertOne documentsCollectionName
             (fork_record tenantId id name sequenceNumber minimumSequenceNumber now)) in
  let* updateParent :=
    update documentsCollectionName
      {| documentId := id; tenantId := tenantId |}
      None
      (Some [("forks", fork_entry tenantId name)]) in
  let* _ := await (Promise_all2 insertFork (inr updateParent)) in
  let* _ :=
    sendIntegrateStream JSON_stringify tenantId id sequenceNumber
      minimumSequenceNumber name in
  ret name.

(** The head of the parent, if any, has attributes that decode to a value
    whose fields can be read. *)
Definition readable (w : World) (tenantId id : string) : Prop :=
  match refs w !! (tenantId, id) with
  | None => True
  | Some commit =>
      exists text attributes,
        blobs w !! (tenantId, commit, ".attributes") = Some text
        /\ JSON_parse (Buffer_base64_utf8 text) = Some attributes
        /\ attributes <> VNull /\ attributes <> VUndefined
  end.

End Outcomes.

(** ** A test world

    One tenant ["t1"] whose document ["doc1"] has a head commit with
    attributes [{sequenceNumber: 42, minimumSequenceNumber: 10}], a second
    document ["doc2"] whose attributes blob is not JSON, and a document
    ["doc3"] without history.  Only ["doc1"] and ["doc3"] have a record. *)

Module Fixture.

(** A runtime that knows the texts stored in the test world. *)
Definition JSON_parse (text : string) : option value :=
  if decide (text = "{sequenceNumber:42,minimumSequenceNumber:10}")
  then Some (VObj [("minimumSequenceNumber", VNum 10); ("sequenceNumber", VNum 42)])
  else None.

Definition JSON_stringify (v : value) : string :=
  match prop (prop (prop v "operation") "contents") "documentId" with
  | VStr name => "fork " +:+ name
  | _ => "json"
  end.

Definition Buffer_base64_utf8 (text : string) : string := text.

Definition root_record (tenantId documentId : string) : value :=
  VObj [("createTime", VNum 5);
        ("documentId", VStr documentId);
        ("forks", VArr []);
        ("parent", VNull);
        ("sequenceNumber", VNum 42);
        ("tenantId", VStr tenantId)].

Definition world0 : World :=
  {| refs := {[ ("t1", "doc1") := "c0ffee"; ("t1", "doc2") := "badbad" ]};
     blobs := {[ ("t1", "c0ffee", ".attributes")
                   := "{sequenceNumber:42,minimumSequenceNumber:10}";
                 ("t1", "badbad", ".attributes") := "not json" ]};
     collections := {[ "documents" := [root_record "t1" "doc1"; root_record "t1" "doc3"] ]};
     sent := [];
     trace := [];
     logged := [];
     down := fun _ => false;
     moniker := fun n => if n is O then "hungry-cat" else "lazy-dog";
     chosen := 0;
     clock := fun n => (1000 + Z.of_nat n)%Z;
     ticks := 0 |}.

(** The worlds after forking ["doc1"], ["doc3"] and the unrecorded ["ghost"]. *)
Definition forked (id : string) : World :=
  (createFork JSON_parse JSON_stringify Buffer_base64_utf8 "documents" "t1" id
     world0).2.
Definition forked_doc1 : World := forked "doc1".
Definition forked_doc3 : World := forked "doc3".
Definition forked_ghost : World := forked "ghost".

Definition attributes_doc1 : value :=
  VObj [("minimumSequenceNumber", VNum 10); ("sequenceNumber", VNum 42)].

End Fixture.

(** Variations of the test world. *)

Module Scenario.

Definition with_moniker (names : nat -> string) (w : World) : World :=
  {| refs := refs w; blobs := blobs w; collections := collections w;
     sent := sent w; trace := trace w; logged := logged w; down := down w;
     moniker := names; chosen := chosen w; clock := clock w; ticks := ticks w |}.

Definition with_down (failing : Call -> bool) (w : World) : World :=
  {| refs := refs w; blobs := blobs w; collections := collections w;
     sent := sent w; trace := trace w; logged := logged w; down := failing;
     moniker := moniker w; chosen := chosen w; clock := clock w; ticks := ticks w |}.

(** The name drawn is the id of the recorded ["doc3"]. *)
Definition name_taken : World := with_moniker (fun _ => "doc3") Fixture.world0.

(** The name drawn is the id of the unrecorded ["ghost"]. *)
Definition name_of_parent : World := with_moniker (fun _ => "ghost") Fixture.world0.

(** The producer is down, everything else is up. *)
Definition producer_down : World :=
  with_down (fun c => match c with CSend _ _ => true | _ => false end)
    Fixture.world0.

(** The tenant cannot be resolved. *)
Definition tenant_down : World :=
  with_down (fun c => match c with CGetTenant _ => true | _ => false end)
    Fixture.world0.

(** The head ref cannot be resolved. *)
Definition git_down : World :=
  with_down (fun c => match c with CGetRef _ _ => true | _ => false end)
    Fixture.world0.

(** A git manager that lists one commit for ["doc1"] and none otherwise. *)
Definition getCommits (tenant documentId : string) (count : Z) : M (list string) :=
  fun w => (inr (if decide (documentId = "doc1") then ["c0ffee"] else []), w).

End Scenario.

Abbreviation createFork_at :=
  (createFork Fixture.JSON_parse Fixture.JSON_stringify Fixture.Buffer_base64_utf8).

(** ** Running the promises *)

Lemma bind_inr {A B} (m : M A) (k : A -> M B) w b w' :
  bind m k w = (inr b, w') ->
  exists a w1, m w = (inr a, w1) /\ k a w1 = (inr b, w').
Proof.
  unfold bind. destruct (m w) as [[e | a] w1]; [discriminate | eauto].
Qed.

Lemma invoke_inr {A} (c : Call) (body : M A) w a w' :
  invoke c body w = (inr a, w') ->
  down w c = false /\ body (record_call c w) = (inr a, w').
Proof.
  unfold invoke. destruct (down w c); [discriminate | auto].
Qed.

Lemma bind_run_inl {A B} (m : M A) (k : A -> M B) w e w1 :
  m w = (inl e, w1) -> bind m k w = (inl e, w1).
Proof. unfold bind. intros ->. reflexivity. Qed.

Lemma bind_run_inr {A B} (m : M A) (k : A -> M B) w a w1 :
  m w = (inr a, w1) -> bind m k w = k a w1.
Proof. unfold bind. intros ->. reflexivity. Qed.

Lemma invoke_down {A} (c : Call) (body : M A) w :
  down w c = true -> invoke c body w = (inl (Unavailable c), record_call c w).
Proof. unfold invoke. intros ->. reflexivity. Qed.

Lemma invoke_up {A} (c : Call) (body : M A) w :
  down w c = false -> invoke c body w = body (record_call c w).
Proof. unfold invoke. intros ->. reflexivity. Qed.

Lemma start_run {A} (m : M A) w r w1 :
  m w = (r, w1) -> start m w = (inr r, w1).
Proof. unfold start. intros ->. reflexivity. Qed.

Lemma start_inr {A} (m : M A) w p w' :
  start m w = (inr p, w') -> m w = (p, w').
Proof.
  unfold start. destruct (m w) as [r w1]. congruence.
Qed.

Lemma Promise_all2_inr {A B} (p : Outcome A) (q : Outcome B) a b :
  Promise_all2 p q = inr (a, b) -> p = inr a /\ q = inr b.
Proof.
  destruct p, q; simpl; intros H; inversion H; auto.
Qed.

Lemma get_prop_inr o k v w w' :
  get_prop o k w = (inr v, w') ->
  o <> VNull /\ o <> VUndefined /\ v = prop o k /\ w' = w.
Proof.
  destruct o; simpl; unfold throw, ret; intros H; inversion H; subst; auto.
Qed.

(** ** Fields and records *)

Lemma assoc_assoc_set k k' v fs :
  assoc k (assoc_set k' v fs) = if decide (k = k') then Some v else assoc k fs.
Proof.
  induction fs as [|[k0 v0] fs IH]; simpl.
  - repeat case_decide; congruence.
  - destruct (decide (k' = k0)) as [->|Hne]; simpl.
    + destruct (decide (k = k0)); reflexivity.
    + destruct (decide (k = k0)) as [->|Hne']; simpl.
      * destruct (decide (k0 = k')); congruence.
      * exact IH.
Qed.

Lemma prop_set_prop_ne k k' v o :
  k <> k' -> prop (set_prop k' v o) k = prop o k.
Proof.
  intros Hne. destruct o; simpl; try reflexivity.
  rewrite assoc_assoc_set. case_decide; congruence.
Qed.

Lemma prop_set_prop_eq k v fs :
  prop (set_prop k v (VObj fs)) k = v.
Proof.
  simpl. rewrite assoc_assoc_set. case_decide; [reflexivity | congruence].
Qed.

Lemma prop_append_prop_ne k k' v doc :
  k <> k' -> prop (append_prop doc (k', v)) k = prop doc k.
Proof.
  intros Hne. unfold append_prop. simpl.
  destruct (prop doc k'); auto using prop_set_prop_ne.
Qed.

Lemma prop_append_prop_eq k v doc items :
  prop doc k = VArr items ->
  prop (append_prop doc (k, v)) k = VArr (items ++ [v]).
Proof.
  intros H. unfold append_prop. simpl. rewrite H.
  destruct doc; try discriminate. apply prop_set_prop_eq.
Qed.

Lemma apply_update_append kv doc :
  apply_update None (Some [kv]) doc = append_prop doc kv.
Proof. reflexivity. Qed.

Lemma matches_append_forks k v doc :
  matches k (append_prop doc ("forks", v)) = matches k doc.
Proof.
  unfold matches. rewrite !prop_append_prop_ne by discriminate. reflexivity.
Qed.

Lemma find_fresh_last (P : value -> bool) docs doc :
  existsb P docs = false ->
  List.find P (docs ++ [doc]) = if P doc then Some doc else None.
Proof.
  induction docs as [|d docs IH]; simpl; [reflexivity|].
  destruct (P d); simpl; [discriminate | exact IH].
Qed.

Lemma find_none_existsb (P : value -> bool) docs :
  List.find P docs = None <-> existsb P docs = false.
Proof.
  induction docs as [|d docs IH]; simpl; [tauto|].
  destruct (P d); simpl; [split; discriminate | exact IH].
Qed.

Lemma find_app_found (P : value -> bool) docs more doc :
  List.find P docs = Some doc -> List.find P (docs ++ more) = Some doc.
Proof.
  induction docs as [|d docs IH]; simpl; [discriminate|].
  destruct (P d); auto.
Qed.

(** Rewriting one record leaves a lookup under [k] on the same record,
    possibly rewritten, as long as the rewrite keeps the key fields. *)
Lemma find_update_first k P f docs doc :
  (forall d, matches k (f d) = matches k d) ->
  List.find (matches k) docs = Some doc ->
  List.find (matches k) (update_first P f docs) = Some doc
  \/ List.find (matches k) (update_first P f docs) = Some (f doc).
Proof.
  intros Hf. induction docs as [|d docs IH]; simpl; [discriminate|].
  destruct (P d) eqn:HP; simpl.
  - rewrite Hf. destruct (matches k d); intros H; [inversion H; auto | auto].
  - destruct (matches k d); intros H; [inversion H; auto | auto].
Qed.

(** An update under the key of the lookup rewrites the record found. *)
Lemma find_update_first_same k f docs :
  (forall d, matches k (f d) = matches k d) ->
  List.find (matches k) (update_first (matches k) f docs)
  = f <$> List.find (matches k) docs.
Proof.
  intros Hf. induction docs as [|d docs IH]; simpl; [reflexivity|].
  destruct (matches k d) eqn:Hd; simpl.
  - rewrite Hf, Hd. reflexivity.
  - rewrite Hd. exact IH.
Qed.

Lemma update_first_none P f docs :
  existsb P docs = false -> update_first P f docs = docs.
Proof.
  induction docs as [|d docs IH]; simpl; [reflexivity|].
  destruct (P d); simpl; [discriminate | intros H; f_equal; auto].
Qed.

Lemma matches_fork_record t id name sn msn now :
  matches {| documentId := name; tenantId := t |}
    (fork_record t id name sn msn now) = true.
Proof.
  unfold matches. simpl. rewrite !bool_decide_eq_true_2; reflexivity.
Qed.

(** ** The collaborators, when they answer *)

Lemma moniker_choose_inr w name w1 :
  moniker_choose w = (inr name, w1) ->
  name = moniker w (chosen w) /\ w1 = draw_name w.
Proof. unfold moniker_choose. intros H. inversion H; subst; auto. Qed.

Lemma Date_now_inr w now w1 :
  Date_now w = (inr now, w1) -> now = clock w (ticks w) /\ w1 = tick w.
Proof. unfold Date_now. intros H. inversion H; subst; auto. Qed.

Lemma winston_info_inr line w u w1 :
  winston_info line w = (inr u, w1) -> w1 = log_line line w.
Proof. unfold winston_info. intros H. inversion H; subst; auto. Qed.

Lemma getTenant_inr tenantId w tenant w1 :
  getTenant tenantId w = (inr tenant, w1) ->
  down w (CGetTenant tenantId) = false
  /\ tenant = tenantId /\ w1 = record_call (CGetTenant tenantId) w.
Proof.
  intros H. apply invoke_inr in H as [Hup H]. unfold ret in H. simpl in H.
  inversion H; subst; auto.
Qed.

Lemma getRef_inr tenant id w head w1 :
  getRef tenant id w = (inr head, w1) ->
  down w (CGetRef tenant id) = false
  /\ head = ((fun commit => {| ref := id; object := {| sha := commit |} |})
               <$> refs w !! (tenant, id))
  /\ w1 = record_call (CGetRef tenant id) w.
Proof.
  intros H. apply invoke_inr in H as [Hup H]. unfold ret in H. simpl in H.
  inversion H; subst; auto.
Qed.

Lemma getContent_run tenant commit path w :
  getContent tenant commit path w =
    (if down w (CGetContent tenant commit path)
     then inl (Unavailable (CGetContent tenant commit path))
     else match blobs w !! (tenant, commit, path) with
          | Some text => inr {| content := text |}
          | None => inl (NotFound commit path)
          end,
     record_call (CGetContent tenant commit path) w).
Proof.
  unfold getContent, invoke. destruct (down w _); [reflexivity|].
  simpl. destruct (blobs w !! _); reflexivity.
Qed.

Lemma upsertRef_run tenant name commit w :
  upsertRef tenant name commit w =
    if down w (CUpsertRef tenant name commit)
    then (inl (Unavailable (CUpsertRef tenant name commit)),
          record_call (CUpsertRef tenant name commit) w)
    else (inr {| ref := name; object := {| sha := commit |} |},
          set_refs (insert (tenant, name) commit)
            (record_call (CUpsertRef tenant name commit) w)).
Proof. reflexivity. Qed.

Lemma getDatabase_inr w db w1 :
  getDatabase w = (inr db, w1) ->
  down w CGetDatabase = false /\ w1 = record_call CGetDatabase w.
Proof.
  intros H. apply invoke_inr in H as [Hup H]. unfold ret in H. simpl in H.
  inversion H; subst; auto.
Qed.

Lemma insertOne_inr coll doc k w u w1 :
  key_of doc = Some k ->
  insertOne coll doc w = (inr u, w1) ->
  down w (CInsertOne coll doc) = false
  /\ existsb (matches k) (documents coll w) = false
  /\ w1 = set_collections (insert coll (documents coll w ++ [doc]))
            (record_call (CInsertOne coll doc) w).
Proof.
  intros Hk H. apply invoke_inr in H as [Hup H]. rewrite Hk in H.
  change (documents coll (record_call (CInsertOne coll doc) w))
    with (documents coll w) in H.
  destruct (existsb (matches k) (documents coll w)); [discriminate|].
  inversion H; subst; auto.
Qed.

Lemma update_inr coll k set addToSet w u w1 :
  update coll k set addToSet w = (inr u, w1) ->
  down w (CUpdate coll k set addToSet) = false
  /\ w1 = set_collections
            (insert coll
               (update_first (matches k) (apply_update set addToSet)
                  (documents coll w)))
            (record_call (CUpdate coll k set addToSet) w).
Proof.
  intros H. apply invoke_inr in H as [Hup H]. unfold ret in H. simpl in H.
  inversion H; subst; auto.
Qed.

Lemma send_inr message key w u w1 :
  send message key w = (inr u, w1) ->
  down w (CSend message key) = false
  /\ w1 = set_sent (fun l => l ++ [(message, key)])
            (record_call (CSend message key) w).
Proof.
  intros H. apply invoke_inr in H as [Hup H]. unfold ret in H. simpl in H.
  inversion H; subst; auto.
Qed.

(** ** Lookups *)

Lemma matches_is_object k doc : matches k doc = true -> exists fs, doc = VObj fs.
Proof.
  destruct doc; try discriminate. eauto.
Qed.

(** [getForks] on a recorded document: its [forks], or [[]] when the field
    is falsy. *)
Lemma getForks_found coll t d w doc :
  down w CGetDatabase = false ->
  down w (CFindOne coll {| documentId := d; tenantId := t |}) = false ->
  List.find (matches {| documentId := d; tenantId := t |}) (documents coll w)
  = Some doc ->
  getForks coll t d w =
    (inr (if truthy (prop doc "forks") then prop doc "forks" else VArr []),
     record_call (CFindOne coll {| documentId := d; tenantId := t |})
       (record_call CGetDatabase w)).
Proof.
  intros Hup1 Hup2 Hfind.
  destruct (matches_is_object _ _ (proj2 (find_some _ _ Hfind))) as [fs ->].
  unfold getForks, getDatabase, findOne.
  erewrite bind_run_inr by (rewrite invoke_up by exact Hup1; reflexivity).
  erewrite bind_run_inr
    by (rewrite invoke_up by exact Hup2;
        change (documents coll (record_call CGetDatabase
                                  (record_call _ w)))
          with (documents coll w);
        unfold documents in *; simpl; rewrite Hfind; reflexivity).
  reflexivity.
Qed.

(** [getForks] on a document without a record: [findOne] answers [null]
    and reading [forks] of it throws. *)
Lemma getForks_absent coll t d w :
  down w CGetDatabase = false ->
  down w (CFindOne coll {| documentId := d; tenantId := t |}) = false ->
  List.find (matches {| documentId := d; tenantId := t |}) (documents coll w)
  = None ->
  getForks coll t d w =
    (inl (TypeError "forks"),
     record_call (CFindOne coll {| documentId := d; tenantId := t |})
       (record_call CGetDatabase w)).
Proof.
  intros Hup1 Hup2 Hfind.
  unfold getForks, getDatabase, findOne.
  erewrite bind_run_inr by (rewrite invoke_up by exact Hup1; reflexivity).
  erewrite bind_run_inr
    by (rewrite invoke_up by exact Hup2;
        unfold documents in *; simpl; rewrite Hfind; reflexivity).
  reflexivity.
Qed.

Lemma getOrCreateDocument_run coll t d w :
  down w CGetDatabase = false ->
  down w (CFindOrCreate coll {| documentId := d; tenantId := t |}
            (default_record t d (clock w (ticks w)))) = false ->
  getOrCreateDocument coll t d w =
    let call :=
      CFindOrCreate coll {| documentId := d; tenantId := t |}
        (default_record t d (clock w (ticks w))) in
    let w1 := record_call call (tick (record_call CGetDatabase w)) in
    match List.find (matches {| documentId := d; tenantId := t |})
            (documents coll w) with
    | Some doc => (inr {| existing := true; found := doc |}, w1)
    | None =>
        (inr {| existing := false;
                found := default_record t d (clock w (ticks w)) |},
         set_collections
           (insert coll
              (documents coll w ++ [default_record t d (clock w (ticks w))])) w1)
    end.
Proof.
  intros Hup1 Hup2.
  unfold getOrCreateDocument, getOrCreateObject, getDatabase, findOrCreate.
  erewrite bind_run_inr by (rewrite invoke_up by exact Hup1; reflexivity).
  erewrite bind_run_inr by reflexivity.
  unfold bind. rewrite invoke_up by exact Hup2.
  change (documents coll
            (record_call
               (CFindOrCreate coll {| documentId := d; tenantId := t |}
                  (default_record t d
                     (clock (record_call CGetDatabase w)
                        (ticks (record_call CGetDatabase w)))))
               (tick (record_call CGetDatabase w))))
    with (documents coll w).
  simpl. destruct (List.find _ (documents coll w)); reflexivity.
Qed.

Lemma matches_default_record t d now :
  matches {| documentId := d; tenantId := t |} (default_record t d now) = true.
Proof.
  unfold matches. simpl. rewrite !bool_decide_eq_true_2; reflexivity.
Qed.

Section Facts.

Variable JSON_parse : string -> option value.
Variable JSON_stringify : value -> string.
Variable Buffer_base64_utf8 : string -> string.

Abbreviation createFork := (createFork JSON_parse JSON_stringify Buffer_base64_utf8).
Abbreviation sequencing := (sequencing JSON_parse Buffer_base64_utf8).
Abbreviation sendIntegrateStream := (sendIntegrateStream JSON_stringify).

Lemma sequencing_inr t name head w sn msn w' :
  sequencing t name head w = (inr (sn, msn), w') ->
  match head with
  | None =>
      sn = VNum StartingSequenceNumber /\ msn = VNum StartingSequenceNumber /\ w' = w
  | Some h =>
      exists text attributes,
        blobs w !! (t, sha (object h), ".attributes") = Some text /\
        JSON_parse (Buffer_base64_utf8 text) = Some attributes /\
        attributes <> VNull /\ attributes <> VUndefined /\
        sn = prop attributes "sequenceNumber" /\
        msn = prop attributes "minimumSequenceNumber" /\
        down w (CGetContent t (sha (object h)) ".attributes") = false /\
        down w (CUpsertRef t name (sha (object h))) = false /\
        w' = set_refs (insert (t, name) (sha (object h)))
               (record_call (CUpsertRef t name (sha (object h)))
                  (record_call (CGetContent t (sha (object h)) ".attributes") w))
  end.
Proof.
  destruct head as [h|]; simpl; intros H.
  - apply bind_inr in H as (p & w1 & Hp & H).
    apply start_inr in Hp.
    apply bind_inr in H as (q & w2 & Hq & H).
    apply start_inr in Hq.
    apply bind_inr in H as ([blob r] & w3 & Hall & H).
    unfold await in Hall. inversion Hall; subst w3; clear Hall.
    apply Promise_all2_inr in H1 as [-> ->].
    apply invoke_inr in Hp as [Hup1 Hp].
    apply invoke_inr in Hq as [Hup2 Hq].
    simpl in Hp.
    destruct (blobs w !! (t, sha (object h), ".attributes")) as [text|] eqn:Htext;
      [|discriminate].
    inversion Hp; subst blob w1; clear Hp.
    simpl in Hup2. inversion Hq; subst r w2; clear Hq.
    apply bind_inr in H as (attributes & w3 & Hparse & H).
    unfold parse in Hparse. simpl in Hparse.
    destruct (JSON_parse (Buffer_base64_utf8 text)) as [v|] eqn:Hv; [|discriminate].
    inversion Hparse; subst v w3; clear Hparse.
    apply bind_inr in H as (m & w4 & Hm & H).
    apply get_prop_inr in Hm as (Hnull & Hundef & -> & ->).
    apply bind_inr in H as (s & w5 & Hs & H).
    apply get_prop_inr in Hs as (_ & _ & -> & ->).
    inversion H; subst. exists text, attributes. auto 10.
  - inversion H; auto.
Qed.

Abbreviation Forked := (Forked JSON_parse JSON_stringify Buffer_base64_utf8).
Abbreviation persisted := (persisted JSON_stringify).

Lemma key_of_fork_record t id name sn msn now :
  key_of (fork_record t id name sn msn now)
  = Some {| documentId := name; tenantId := t |}.
Proof. reflexivity. Qed.

Lemma sendIntegrateStream_inr t id sn msn name w u w1 :
  sendIntegrateStream t id sn msn name w = (inr u, w1) ->
  down w (CSend (JSON_stringify
                   (integrateMessage t id sn msn name (clock w (ticks w)))) id)
  = false
  /\ w1 = set_sent
            (fun l =>
               l ++ [(JSON_stringify
                        (integrateMessage t id sn msn name (clock w (ticks w))),
                      id)])
            (record_call
               (CSend (JSON_stringify
                         (integrateMessage t id sn msn name (clock w (ticks w))))
                  id)
               (tick w)).
Proof.
  unfold sendIntegrateStream. intros H.
  apply bind_inr in H as (now & w2 & Hnow & H).
  apply Date_now_inr in Hnow as [-> ->].
  apply send_inr in H as [Hup ->]. auto.
Qed.

Lemma createFork_inr_world coll t id w n w' :
  createFork coll t id w = (inr n, w') ->
  n = moniker w (chosen w)
  /\ down w (CGetTenant t) = false
  /\ down w (CGetRef t id) = false
  /\ exists sn msn w1,
      sequencing t n
        ((fun commit => {| ref := id; object := {| sha := commit |} |})
           <$> refs w !! (t, id))
        (log_line
           (JSON_stringify
              (IRef_value
                 ((fun commit => {| ref := id; object := {| sha := commit |} |})
                    <$> refs w !! (t, id))))
           (record_call (CGetRef t id) (record_call (CGetTenant t) (draw_name w))))
      = (inr (sn, msn), w1)
      /\ down w1 CGetDatabase = false
      /\ down w1 (CInsertOne coll (fork_record t id n sn msn (clock w1 (ticks w1))))
         = false
      /\ existsb (matches {| documentId := n; tenantId := t |}) (documents coll w1)
         = false
      /\ down w1 (CUpdate coll {| documentId := id; tenantId := t |} None
                    (Some [("forks", fork_entry t n)])) = false
      /\ down w1 (CSend (JSON_stringify
                           (integrateMessage t id sn msn n (clock w1 (S (ticks w1)))))
                    id) = false
      /\ w' = persisted coll t id n sn msn w1.
Proof.
  unfold createFork. intros H.
  apply bind_inr in H as (name & w1 & Hname & H).
  apply moniker_choose_inr in Hname as [-> ->].
  apply bind_inr in H as (tenant & w1 & Htenant & H).
  apply getTenant_inr in Htenant as (Hup1 & -> & ->).
  apply bind_inr in H as (head & w1 & Hhead & H).
  apply getRef_inr in Hhead as (Hup2 & -> & ->).
  apply bind_inr in H as (u & w1 & Hlog & H).
  apply winston_info_inr in Hlog as ->.
  apply bind_inr in H as ([sn msn] & w1 & Hseq & H).
  apply bind_inr in H as (db & w2 & Hdb & H).
  apply getDatabase_inr in Hdb as (Hup3 & ->).
  apply bind_inr in H as (now & w2 & Hnow & H).
  apply Date_now_inr in Hnow as [-> ->].
  apply bind_inr in H as (insertFork & w2 & Hins & H).
  apply start_inr in Hins.
  apply bind_inr in H as (updateParent & w3 & Hupd & H).
  apply update_inr in Hupd as (Hup5 & ->).
  apply bind_inr in H as ([u1 u2] & w3 & Hall & H).
  unfold await in Hall. injection Hall as Hall <-.
  apply Promise_all2_inr in Hall as [-> _].
  apply (insertOne_inr _ _ _ _ _ _ (key_of_fork_record _ _ _ _ _ _)) in Hins
    as (Hup4 & Hfresh & ->).
  apply bind_inr in H as (u3 & w3 & Hsend & H).
  apply sendIntegrateStream_inr in Hsend as (Hup6 & ->).
  injection H as <- <-.
  split; [reflexivity|]. split; [exact Hup1|]. split; [exact Hup2|].
  exists sn, msn, w1. split; [exact Hseq|].
  unfold persisted, documents in *. simpl in *.
  rewrite lookup_insert_eq in *. simpl. auto 10.
Qed.

Lemma createFork_inr coll t id w n w' :
  createFork coll t id w = (inr n, w') ->
  n = moniker w (chosen w) /\ exists sn msn, Forked coll t id w w' sn msn.
Proof.
  intros H.
  apply createFork_inr_world in H
    as (-> & Hup1 & Hup2 & sn & msn & w1 & Hseq & Hup3 & Hup4 & Hfresh & Hup5
        & Hup6 & ->).
  split; [reflexivity|]. exists sn, msn.
  apply sequencing_inr in Hseq.
  destruct (refs w !! (t, id)) as [commit|] eqn:Hhead; simpl in Hseq.
  - destruct Hseq as (text & attributes & Htext & Hattr & Hnull & Hundef & Hsn & Hmsn
                      & Hup7 & Hup8 & ->).
    split; unfold persisted, documents in *; simpl in *;
      rewrite ?Hhead, ?lookup_insert_eq, ?insert_insert_eq; simpl; auto.
    + exists text, attributes. auto 10.
    + rewrite <- !app_assoc. reflexivity.
    + repeat constructor; assumption.
  - destruct Hseq as (Hsn & Hmsn & ->).
    split; unfold persisted, documents in *; simpl in *;
      rewrite ?Hhead, ?lookup_insert_eq, ?insert_insert_eq; simpl; auto.
    + rewrite <- !app_assoc. reflexivity.
    + repeat constructor; assumption.
Qed.

Lemma forked_documents coll t id w w' sn msn :
  Forked coll t id w w' sn msn ->
  documents coll w' =
    update_first (matches {| documentId := id; tenantId := t |})
      (apply_update None (Some [("forks", fork_entry t (moniker w (chosen w)))]))
      (documents coll w
         ++ [fork_record t id (moniker w (chosen w)) sn msn (clock w (ticks w))]).
Proof.
  intros F. unfold documents at 1. rewrite (fk_collections _ _ _ _ _ _ _ _ _ _ F).
  rewrite lookup_insert_eq. reflexivity.
Qed.

(** The record a lookup under the fork id finds after a run that returned:
    the inserted one, with at most its [forks] touched. *)
Lemma forked_record coll t id w w' sn msn :
  Forked coll t id w w' sn msn ->
  List.find (matches {| documentId := moniker w (chosen w); tenantId := t |})
    (documents coll w) = None
  /\ exists record,
      List.find (matches {| documentId := moniker w (chosen w); tenantId := t |})
        (documents coll w') = Some record
      /\ forall k, k <> "forks" ->
           prop record k
           = prop (fork_record t id (moniker w (chosen w)) sn msn (clock w (ticks w))) k.
Proof.
  intros F. pose proof (fk_fresh _ _ _ _ _ _ _ _ _ _ F) as Hfresh.
  split; [apply find_none_existsb; exact Hfresh|].
  rewrite (forked_documents _ _ _ _ _ _ _ F).
  set (fork := fork_record t id (moniker w (chosen w)) sn msn (clock w (ticks w))).
  assert (Hfind : List.find
            (matches {| documentId := moniker w (chosen w); tenantId := t |})
            (documents coll w ++ [fork]) = Some fork).
  { rewrite find_fresh_last by exact Hfresh.
    unfold fork. rewrite matches_fork_record. reflexivity. }
  eapply (find_update_first _ (matches {| documentId := id; tenantId := t |})
            (apply_update None
               (Some [("forks", fork_entry t (moniker w (chosen w)))]))) in Hfind.
  - destruct Hfind as [Hfind | Hfind]; rewrite Hfind; eexists; split; eauto.
    intros k Hk. rewrite apply_update_append. apply prop_append_prop_ne. exact Hk.
  - intros d. rewrite apply_update_append. apply matches_append_forks.
Qed.

(** The parent record, when there is one, has the fork appended to its
    [forks] by a run that returned. *)
Lemma forked_parent coll t id w w' sn msn parent :
  Forked coll t id w w' sn msn ->
  List.find (matches {| documentId := id; tenantId := t |}) (documents coll w)
  = Some parent ->
  List.find (matches {| documentId := id; tenantId := t |}) (documents coll w')
  = Some (append_prop parent ("forks", fork_entry t (moniker w (chosen w)))).
Proof.
  intros F Hparent. rewrite (forked_documents _ _ _ _ _ _ _ F).
  rewrite find_update_first_same.
  - erewrite find_app_found by exact Hparent. reflexivity.
  - intros d. rewrite apply_update_append. apply matches_append_forks.
Qed.

(** C1. When the parent has a head ref and the [.attributes] blob at the head
    commit decodes to [sequenceNumber = S] and [minimumSequenceNumber = M],
    a [createFork] that returns has inserted a fork record, new under the
    returned id, whose [parent] is [{documentId: id, minimumSequenceNumber: M,
    sequenceNumber: S, tenantId}] with [S] and [M] exactly as read, and has
    created a ref named by the returned id that points at the commit of the
    parent's head. *)
Theorem createFork_parent_snapshot coll t id w n w' commit text attributes S M :
  refs w !! (t, id) = Some commit ->
  blobs w !! (t, commit, ".attributes") = Some text ->
  JSON_parse (Buffer_base64_utf8 text) = Some attributes ->
  prop attributes "sequenceNumber" = S ->
  prop attributes "minimumSequenceNumber" = M ->
  createFork coll t id w = (inr n, w') ->
  List.find (matches {| documentId := n; tenantId := t |}) (documents coll w) = None
  /\ (exists record,
        List.find (matches {| documentId := n; tenantId := t |}) (documents coll w')
        = Some record
        /\ prop record "documentId" = VStr n
        /\ prop record "parent"
           = VObj [("documentId", VStr id);
                   ("minimumSequenceNumber", M);
                   ("sequenceNumber", S);
                   ("tenantId", VStr t)])
  /\ refs w' !! (t, n) = Some commit.
Proof.
  intros Hhead Htext Hattr HS HM Hrun.
  apply createFork_inr in Hrun as [-> (sn & msn & F)].
  destruct (forked_record _ _ _ _ _ _ _ F) as [Hnew (record & Hfind & Hsame)].
  destruct F as [Hder Hrefs _ _ _ _ _ _ _ _].
  rewrite Hhead in Hder, Hrefs.
  destruct Hder as (text' & attributes' & Htext' & Hattr' & _ & _ & -> & ->).
  rewrite Htext in Htext'. inversion Htext'; subst text'.
  rewrite Hattr in Hattr'. inversion Hattr'; subst attributes'.
  split; [exact Hnew|]. split.
  - exists record. split; [exact Hfind|].
    rewrite !Hsame by discriminate. subst S M. split; reflexivity.
  - rewrite Hrefs. apply lookup_insert_eq.
Qed.

(** C6. When the parent has no head ref, a [createFork] that returns has
    produced a fork whose sequenceNumber and minimumSequenceNumber are both
    0, in the record it inserted and in the announcement it sent, and has
    created no ref: the refs are as they were. *)
Theorem createFork_without_history coll t id w n w' :
  refs w !! (t, id) = None ->
  createFork coll t id w = (inr n, w') ->
  refs w' = refs w
  /\ (exists record,
        List.find (matches {| documentId := n; tenantId := t |}) (documents coll w')
        = Some record
        /\ prop record "sequenceNumber" = VNum 0
        /\ prop (prop record "parent") "sequenceNumber" = VNum 0
        /\ prop (prop record "parent") "minimumSequenceNumber" = VNum 0)
  /\ (exists envelope,
        sent w' = sent w ++ [(JSON_stringify envelope, id)]
        /\ prop (prop (prop envelope "operation") "contents") "sequenceNumber"
           = VNum 0
        /\ prop (prop (prop envelope "operation") "contents") "minSequenceNumber"
           = VNum 0).
Proof.
  intros Hhead Hrun.
  apply createFork_inr in Hrun as [-> (sn & msn & F)].
  destruct (forked_record _ _ _ _ _ _ _ F) as [_ (record & Hfind & Hsame)].
  destruct F as [Hder Hrefs _ _ _ Hsent _ _ _ _].
  rewrite Hhead in Hder, Hrefs. destruct Hder as [-> ->].
  split; [exact Hrefs|]. split.
  - exists record. split; [exact Hfind|].
    rewrite !Hsame by discriminate. repeat split; reflexivity.
  - eexists. split; [exact Hsent|]. split; reflexivity.
Qed.

(** C5. A [createFork] that returns has sent exactly one message: the
    serialized envelope with type "RawOperation", documentId the parent's
    id, clientId and user null, an operation of type "Fork" with
    clientSequenceNumber and referenceSequenceNumber -1 and empty traces,
    whose contents carry the returned fork id and the sequencing state read
    at the head (0 and 0 without a head); the key given to the producer is
    the parent's id. *)
Theorem createFork_announcement coll t id w n w' :
  createFork coll t id w = (inr n, w') ->
  exists envelope,
    sent w' = sent w ++ [(JSON_stringify envelope, id)]
    /\ prop envelope "type" = VStr "RawOperation"
    /\ prop envelope "documentId" = VStr id
    /\ prop envelope "clientId" = VNull
    /\ prop envelope "user" = VNull
    /\ prop (prop envelope "operation") "type" = VStr "Fork"
    /\ prop (prop envelope "operation") "clientSequenceNumber" = VNum (-1)
    /\ prop (prop envelope "operation") "referenceSequenceNumber" = VNum (-1)
    /\ prop (prop envelope "operation") "traces" = VArr []
    /\ prop (prop (prop envelope "operation") "contents") "documentId" = VStr n
    /\ match refs w !! (t, id) with
       | None =>
           prop (prop (prop envelope "operation") "contents") "sequenceNumber"
           = VNum 0
           /\ prop (prop (prop envelope "operation") "contents") "minSequenceNumber"
              = VNum 0
       | Some commit =>
           exists text attributes,
             blobs w !! (t, commit, ".attributes") = Some text
             /\ JSON_parse (Buffer_base64_utf8 text) = Some attributes
             /\ prop (prop (prop envelope "operation") "contents") "sequenceNumber"
                = prop attributes "sequenceNumber"
             /\ prop (prop (prop envelope "operation") "contents")
                  "minSequenceNumber"
                = prop attributes "minimumSequenceNumber"
       end.
Proof.
  intros Hrun.
  apply createFork_inr in Hrun as [-> (sn & msn & F)].
  destruct F as [Hder _ _ _ _ Hsent _ _ _ _].
  eexists. split; [exact Hsent|].
  repeat (split; [reflexivity|]).
  destruct (refs w !! (t, id)) as [commit|].
  - destruct Hder as (text & attributes & Htext & Hattr & _ & _ & -> & ->).
    exists text, attributes. repeat split; assumption.
  - destruct Hder as [-> ->]. split; reflexivity.
Qed.

(** C10. A [createFork] that returns has drawn one name and used it
    throughout: it is the name of the ref it created (when the parent has a
    head), the documentId of the record it inserted, the documentId of the
    entry it added to the parent's forks, the documentId in the contents of
    the announcement, and the value returned. *)
Theorem createFork_one_name coll t id w n w' :
  createFork coll t id w = (inr n, w') ->
  n = moniker w (chosen w)
  /\ chosen w' = S (chosen w)
  /\ (forall commit,
        refs w !! (t, id) = Some commit ->
        In (CUpsertRef t n commit) (trace w') /\ refs w' !! (t, n) = Some commit)
  /\ (exists record,
        In (CInsertOne coll record) (trace w')
        /\ prop record "documentId" = VStr n
        /\ exists stored,
             List.find (matches {| documentId := n; tenantId := t |})
               (documents coll w') = Some stored
             /\ prop stored "documentId" = VStr n)
  /\ In (CUpdate coll {| documentId := id; tenantId := t |} None
           (Some [("forks", VObj [("documentId", VStr n); ("tenantId", VStr t)])]))
        (trace w')
  /\ (exists envelope,
        sent w' = sent w ++ [(JSON_stringify envelope, id)]
        /\ prop (prop (prop envelope "operation") "contents") "documentId" = VStr n).
Proof.
  intros Hrun.
  apply createFork_inr in Hrun as [-> (sn & msn & F)].
  destruct (forked_record _ _ _ _ _ _ _ F) as [_ (stored & Hfind & Hsame)].
  destruct F as [_ Hrefs _ _ _ Hsent Htrace _ _ Hchosen].
  split; [reflexivity|]. split; [exact Hchosen|]. split; [|split; [|split]].
  - intros commit Hhead. rewrite Hhead in Hrefs, Htrace. split.
    + rewrite Htrace. apply in_or_app. right. simpl. auto.
    + rewrite Hrefs. apply lookup_insert_eq.
  - exists (fork_record t id (moniker w (chosen w)) sn msn (clock w (ticks w))).
    split; [|split; [reflexivity|]].
    + rewrite Htrace. apply in_or_app. right. unfold fork_calls.
      apply in_or_app. right. apply in_or_app. right. simpl. right. left.
      reflexivity.
    + exists stored. split; [exact Hfind|]. rewrite Hsame by discriminate.
      reflexivity.
  - rewrite Htrace. apply in_or_app. right. unfold fork_calls.
    apply in_or_app. right. apply in_or_app. right. simpl. auto.
  - eexists. split; [exact Hsent|]. reflexivity.
Qed.

(** C7. When [createFork] returns a name, the world it returns in already
    holds the whole run: the boundary calls were issued in order (tenant and
    ref resolution, the attributes read and the ref creation when there is a
    head, the insert of the record, the update of the parent, the send of
    the announcement) and none of them failed, the attributes were read and
    decoded when there is a head, the fork record and the update of the
    parent are in the collection, and the announcement is with the producer.
    A run in which one of these steps fails therefore returns no name. *)
Theorem createFork_returns_last coll t id w n w' :
  createFork coll t id w = (inr n, w') ->
  exists sn msn,
    trace w' =
      trace w ++ fork_calls JSON_stringify coll t id n (refs w !! (t, id)) sn msn
                   (clock w (ticks w)) (clock w (S (ticks w)))
    /\ Forall (fun c => down w c = false)
         (fork_calls JSON_stringify coll t id n (refs w !! (t, id)) sn msn
            (clock w (ticks w)) (clock w (S (ticks w))))
    /\ match refs w !! (t, id) with
       | None => refs w' = refs w
       | Some commit =>
           refs w' !! (t, n) = Some commit
           /\ exists text attributes,
                blobs w !! (t, commit, ".attributes") = Some text
                /\ JSON_parse (Buffer_base64_utf8 text) = Some attributes
                /\ sn = prop attributes "sequenceNumber"
                /\ msn = prop attributes "minimumSequenceNumber"
       end
    /\ documents coll w' =
         update_first (matches {| documentId := id; tenantId := t |})
           (apply_update None (Some [("forks", fork_entry t n)]))
           (documents coll w ++ [fork_record t id n sn msn (clock w (ticks w))])
    /\ sent w' =
         sent w ++ [(JSON_stringify
                       (integrateMessage t id sn msn n (clock w (S (ticks w)))),
                     id)].
Proof.
  intros Hrun.
  apply createFork_inr in Hrun as [-> (sn & msn & F)].
  pose proof (forked_documents _ _ _ _ _ _ _ F) as Hdocs.
  destruct F as [Hder Hrefs _ _ _ Hsent Htrace Hup _ _].
  exists sn, msn. repeat (split; [assumption|]). split; [|auto].
  destruct (refs w !! (t, id)) as [commit|]; [|exact Hrefs].
  split; [rewrite Hrefs; apply lookup_insert_eq|].
  destruct Hder as (text & attributes & Htext & Hattr & _ & _ & Hsn & Hmsn).
  exists text, attributes. auto.
Qed.

(** The branch on an existing head when the attributes cannot be read. *)
Lemma sequencing_corrupt t name h w :
  (blobs w !! (t, sha (object h), ".attributes") = None
   \/ exists text,
        blobs w !! (t, sha (object h), ".attributes") = Some text
        /\ JSON_parse (Buffer_base64_utf8 text) = None) ->
  exists e w',
    sequencing t name (Some h) w = (inl e, w')
    /\ collections w' = collections w
    /\ sent w' = sent w
    /\ (down w (CUpsertRef t name (sha (object h))) = false ->
        refs w' !! (t, name) = Some (sha (object h)))
    /\ (down w (CGetContent t (sha (object h)) ".attributes") = false ->
        down w (CUpsertRef t name (sha (object h))) = false ->
        e = match blobs w !! (t, sha (object h), ".attributes") with
            | None => NotFound (sha (object h)) ".attributes"
            | Some _ => SyntaxError
            end).
Proof.
  intros Hblob.
  unfold sequencing, bind, start, getContent, upsertRef, invoke, await,
    parse, throw, ret.
  simpl.
  destruct (down w (CGetContent t (sha (object h)) ".attributes"));
    destruct Hblob as [Hb | (text & Hb & Hp)]; rewrite ?Hb; simpl;
    destruct (down w (CUpsertRef t name (sha (object h)))); simpl; rewrite ?Hp;
    simpl; eexists _, _; (split; [reflexivity|]); simpl;
    repeat split; try discriminate; intros; apply lookup_insert_eq.
Qed.

(** C2 (as the code has it). When the parent has a head ref but the
    [.attributes] blob at the head commit is missing or does not decode,
    [createFork] fails, whatever the transport does: no name is returned and
    no sequencing state is made up; the collections and the messages sent
    are as they were, so there is no new record and no announcement.  The
    ref of the fork is issued together with the read and is not taken back:
    when the calls up to it go through, it points at the head commit. *)
Theorem createFork_corrupt_attributes coll t id w commit :
  refs w !! (t, id) = Some commit ->
  (blobs w !! (t, commit, ".attributes") = None
   \/ exists text,
        blobs w !! (t, commit, ".attributes") = Some text
        /\ JSON_parse (Buffer_base64_utf8 text) = None) ->
  exists e w',
    createFork coll t id w = (inl e, w')
    /\ collections w' = collections w
    /\ sent w' = sent w
    /\ (down w (CGetTenant t) = false ->
        down w (CGetRef t id) = false ->
        down w (CUpsertRef t (moniker w (chosen w)) commit) = false ->
        refs w' !! (t, moniker w (chosen w)) = Some commit
        /\ (down w (CGetContent t commit ".attributes") = false ->
            e = match blobs w !! (t, commit, ".attributes") with
                | None => NotFound commit ".attributes"
                | Some _ => SyntaxError
                end)).
Proof.
  intros Hhead Hblob.
  unfold createFork.
  erewrite bind_run_inr by reflexivity.
  unfold getTenant, getRef, invoke at 1 2. unfold bind at 1. simpl.
  destruct (down w (CGetTenant t)) eqn:Hup1; simpl;
    [eexists _, _; repeat split; discriminate|].
  unfold bind at 1. unfold invoke. simpl.
  destruct (down w (CGetRef t id)) eqn:Hup2; simpl;
    [eexists _, _; repeat split; discriminate|].
  rewrite Hhead. simpl.
  erewrite bind_run_inr by reflexivity.
  destruct (sequencing_corrupt t (moniker w (chosen w))
              {| ref := id; object := {| sha := commit |} |}
              (log_line
                 (JSON_stringify
                    (IRef_value (Some {| ref := id; object := {| sha := commit |} |})))
                 (record_call (CGetRef t id)
                    (record_call (CGetTenant t) (draw_name w)))) Hblob)
    as (e & w' & Hrun & Hcoll & Hsent & Href & Herr).
  erewrite bind_run_inl by exact Hrun.
  exists e, w'. split; [reflexivity|]. simpl in *. auto.
Qed.

Lemma emits_silent {A} P (m : M A) :
  (forall w, trace (m w).2 = trace w) -> emits P m.
Proof.
  intros H w. exists []. rewrite H, app_nil_r. auto.
Qed.

Lemma emits_ret {A} P (a : A) : emits P (ret a).
Proof. apply emits_silent. reflexivity. Qed.

Lemma emits_throw {A} P e : emits P (@throw A e).
Proof. apply emits_silent. reflexivity. Qed.

Lemma emits_await {A} P (p : Outcome A) : emits P (await p).
Proof. apply emits_silent. reflexivity. Qed.

Lemma emits_get_prop P o k : emits P (get_prop o k).
Proof. apply emits_silent. intros w. destruct o; reflexivity. Qed.

Lemma emits_Date_now P : emits P Date_now.
Proof. apply emits_silent. reflexivity. Qed.

Lemma emits_bind {A B} P (m : M A) (k : A -> M B) :
  emits P m -> (forall a, emits P (k a)) -> emits P (bind m k).
Proof.
  intros Hm Hk w. unfold bind.
  destruct (Hm w) as (calls & Htrace & Hcalls).
  destruct (m w) as [[e | a] w1]; simpl in *; [eauto|].
  destruct (Hk a w1) as (calls' & Htrace' & Hcalls').
  exists (calls ++ calls'). rewrite Htrace', Htrace, app_assoc.
  split; [reflexivity | apply Forall_app; auto].
Qed.

Lemma emits_start {A} P (m : M A) : emits P m -> emits P (start m).
Proof.
  intros Hm w. unfold start. destruct (Hm w) as (calls & Htrace & Hcalls).
  destruct (m w) as [r w1]. eauto.
Qed.

Lemma emits_invoke {A} P c (body : M A) :
  P c -> (forall w, trace (body w).2 = trace w) -> emits P (invoke c body).
Proof.
  intros Hc Hbody w. exists [c]. unfold invoke.
  destruct (down w c); [|rewrite Hbody]; simpl; auto.
Qed.

Create HintDb emits.
#[local] Hint Resolve emits_ret emits_throw emits_await emits_get_prop
  emits_Date_now emits_bind emits_start : emits.

Lemma emits_parse P text : emits P (parse JSON_parse text).
Proof.
  unfold parse. destruct (JSON_parse text); auto with emits.
Qed.

Lemma emits_getContent (P : Call -> Prop) tenant commit path :
  P (CGetContent tenant commit path) -> emits P (getContent tenant commit path).
Proof.
  intros HP. apply emits_invoke; [exact HP|].
  intros w. simpl. destruct (blobs w !! _); reflexivity.
Qed.

Lemma emits_upsertRef (P : Call -> Prop) tenant name commit :
  P (CUpsertRef tenant name commit) -> emits P (upsertRef tenant name commit).
Proof. intros HP. apply emits_invoke; [exact HP | reflexivity]. Qed.

Lemma emits_getDatabase (P : Call -> Prop) : P CGetDatabase -> emits P getDatabase.
Proof. intros HP. apply emits_invoke; [exact HP | reflexivity]. Qed.

Lemma emits_insertOne (P : Call -> Prop) coll doc :
  P (CInsertOne coll doc) -> emits P (insertOne coll doc).
Proof.
  intros HP. apply emits_invoke; [exact HP|].
  intros w. simpl. destruct (key_of doc); [destruct (existsb _ _)|]; reflexivity.
Qed.

Lemma emits_update (P : Call -> Prop) coll k set addToSet :
  P (CUpdate coll k set addToSet) -> emits P (update coll k set addToSet).
Proof. intros HP. apply emits_invoke; [exact HP | reflexivity]. Qed.

Lemma emits_send (P : Call -> Prop) message key :
  P (CSend message key) -> emits P (send message key).
Proof. intros HP. apply emits_invoke; [exact HP | reflexivity]. Qed.

#[local] Hint Resolve emits_parse emits_getContent emits_upsertRef
  emits_getDatabase emits_insertOne emits_update emits_send : emits.

Lemma emits_sequencing t name head :
  emits (after_resolution (sha <$> (object <$> head))) (sequencing t name head).
Proof.
  destruct head as [h|]; simpl; [|auto with emits].
  repeat (apply emits_bind; [|intros]); auto with emits.
  - apply emits_start, emits_getContent. split; [reflexivity|].
    simpl. intros commit H. exact H.
  - apply emits_start, emits_upsertRef. split; [reflexivity|].
    simpl. intros commit H. exact H.
  - destruct a1. repeat (apply emits_bind; [|intros]); auto with emits.
Qed.

Lemma emits_nothing {A} (m : M A) :
  emits (fun _ => False) m -> forall w, trace (m w).2 = trace w.
Proof.
  intros H w. destruct (H w) as (calls & -> & Hcalls).
  destruct Hcalls as [|c calls []]. apply app_nil_r.
Qed.

(** The calls of the branch on an existing head: the attributes read and
    the ref creation are both issued, in this order and with the commit of
    the head, whatever either of them answers. *)
Lemma sequencing_trace t name h w :
  trace (sequencing t name (Some h) w).2
  = trace w ++ [CGetContent t (sha (object h)) ".attributes";
                CUpsertRef t name (sha (object h))].
Proof.
  unfold sequencing.
  erewrite bind_run_inr by (apply start_run, getContent_run).
  assert (Hrest : forall p q w2,
             trace
               ((let* (attributesContent, _) :=
                   await (@Promise_all2 IBlob IRef p q) in
                 let attributesJson := Buffer_base64_utf8 (content attributesContent) in
                 let* attributes := parse JSON_parse attributesJson in
                 let* minimumSequenceNumber :=
                   get_prop attributes "minimumSequenceNumber" in
                 let* sequenceNumber := get_prop attributes "sequenceNumber" in
                 ret (sequenceNumber, minimumSequenceNumber)) w2).2
             = trace w2).
  { intros p q. apply emits_nothing.
    apply emits_bind; [auto with emits|]. intros [blob r].
    repeat (apply emits_bind; [|intros]); auto with emits. }
  destruct (down w (CUpsertRef t name (sha (object h)))) eqn:Hup;
    (erewrite bind_run_inr
       by (apply start_run; rewrite upsertRef_run; simpl; rewrite Hup; reflexivity));
    rewrite Hrest; simpl; rewrite <- app_assoc; reflexivity.
Qed.

Lemma bind_trace {A B} (P : Call -> Prop) (m : M A) (k : A -> M B) w calls :
  trace (m w).2 = trace w ++ calls ->
  (forall a, emits P (k a)) ->
  exists more,
    trace (bind m k w).2 = trace w ++ calls ++ more /\ Forall P more.
Proof.
  intros Hm Hk. unfold bind. destruct (m w) as [[e | a] w1]; simpl in *.
  - exists []. rewrite app_nil_r. auto.
  - destruct (Hk a w1) as (more & Hmore & HP). exists more.
    rewrite Hmore, Hm, app_assoc. auto.
Qed.

Lemma filter_off_git calls :
  Forall off_git calls ->
  List.filter resolves_ref calls = [] /\ List.filter uses_commit calls = [].
Proof.
  induction 1 as [|c calls [Hr Hu] _ [IHr IHu]]; simpl; [auto|].
  rewrite Hr, Hu. auto.
Qed.


(** C8 (as the code has it). When the parent has a record whose [forks]
    is an array without an entry for the generated id, and [createFork]
    returns that id, [getForks] on the parent answers the parent's forks
    with the entry [{documentId: forkId, tenantId}] added last, and that
    array holds exactly one entry for the id. *)
Theorem createFork_then_getForks coll t id w n w' parent items :
  createFork coll t id w = (inr n, w') ->
  List.find (matches {| documentId := id; tenantId := t |}) (documents coll w)
  = Some parent ->
  prop parent "forks" = VArr items ->
  List.filter (fun entry => is_str n (prop entry "documentId")) items = [] ->
  down w (CFindOne coll {| documentId := id; tenantId := t |}) = false ->
  exists w'',
    getForks coll t id w' = (inr (VArr (items ++ [fork_entry t n])), w'')
    /\ List.filter (fun entry => is_str n (prop entry "documentId"))
         (items ++ [fork_entry t n])
       = [fork_entry t n].
Proof.
  intros Hrun Hparent Hforks Hnone Hup.
  apply createFork_inr in Hrun as [-> (sn & msn & F)].
  pose proof (forked_parent _ _ _ _ _ _ _ _ F Hparent) as Hfind.
  destruct F as [_ _ _ _ _ _ _ Hups Hdown _].
  unfold fork_calls in Hups.
  apply Forall_app in Hups as [_ Hups]. apply Forall_app in Hups as [_ Hups].
  apply Forall_cons in Hups as [Hdb _].
  eexists. split.
  - rewrite (getForks_found _ _ _ _ _) with (1 := eq_trans (f_equal (fun f => f _) Hdown) Hdb)
                                            (3 := Hfind).
    + rewrite (prop_append_prop_eq _ _ _ _ Hforks). reflexivity.
    + rewrite Hdown. exact Hup.
  - rewrite List.filter_app, Hnone. simpl.
    rewrite bool_decide_eq_true_2 by reflexivity. reflexivity.
Qed.

(** C3 (as the code has it). For a key without a record and a transport
    that is up, [getOrCreateDocument] stores and returns, with
    [existing = false], a record with sequenceNumber 0, empty forks, parent
    null and no minimumSequenceNumber field; called again with the same key
    it returns that very record with [existing = true], and the collection
    has gained this one record only. *)
Theorem getOrCreateDocument_twice coll t d w :
  (forall c, down w c = false) ->
  List.find (matches {| documentId := d; tenantId := t |}) (documents coll w)
  = None ->
  exists r1 w1 r2 w2,
    getOrCreateDocument coll t d w = (inr r1, w1)
    /\ getOrCreateDocument coll t d w1 = (inr r2, w2)
    /\ existing r1 = false
    /\ prop (found r1) "sequenceNumber" = VNum 0
    /\ prop (found r1) "minimumSequenceNumber" = VUndefined
    /\ prop (found r1) "forks" = VArr []
    /\ prop (found r1) "parent" = VNull
    /\ existing r2 = true
    /\ found r2 = found r1
    /\ documents coll w2 = documents coll w ++ [found r1].
Proof.
  intros Hup Hnone.
  pose proof (getOrCreateDocument_run coll t d w (Hup _) (Hup _)) as Hrun1.
  simpl in Hrun1. rewrite Hnone in Hrun1.
  set (record := default_record t d (clock w (ticks w))) in *.
  match type of Hrun1 with _ = (_, ?x) => set (w1 := x) in * end.
  assert (Hdocs : documents coll w1 = documents coll w ++ [record]).
  { unfold documents at 1. simpl. rewrite lookup_insert_eq. reflexivity. }
  assert (Hfind : List.find (matches {| documentId := d; tenantId := t |})
                    (documents coll w1) = Some record).
  { rewrite Hdocs, find_fresh_last by (apply find_none_existsb; exact Hnone).
    unfold record. rewrite matches_default_record. reflexivity. }
  pose proof (getOrCreateDocument_run coll t d w1 (Hup _) (Hup _)) as Hrun2.
  simpl in Hrun2. rewrite Hfind in Hrun2.
  eexists _, _, _, _. split; [exact Hrun1|]. split; [exact Hrun2|].
  simpl. repeat split; try reflexivity. exact Hdocs.
Qed.

End Facts.

(** ** The test world, run *)

Lemma createFork_parent_snapshot_witness :
  List.find (matches {| documentId := "hungry-cat"; tenantId := "t1" |})
    (documents "documents" Fixture.world0) = None
  /\ (exists record,
        List.find (matches {| documentId := "hungry-cat"; tenantId := "t1" |})
          (documents "documents" Fixture.forked_doc1) = Some record
        /\ prop record "documentId" = VStr "hungry-cat"
        /\ prop record "parent"
           = VObj [("documentId", VStr "doc1");
                   ("minimumSequenceNumber", VNum 10);
                   ("sequenceNumber", VNum 42);
                   ("tenantId", VStr "t1")])
  /\ refs Fixture.forked_doc1 !! ("t1", "hungry-cat") = Some "c0ffee".
Proof.
  apply (createFork_parent_snapshot Fixture.JSON_parse Fixture.JSON_stringify
           Fixture.Buffer_base64_utf8 "documents" "t1" "doc1" Fixture.world0
           "hungry-cat" Fixture.forked_doc1 "c0ffee"
           "{sequenceNumber:42,minimumSequenceNumber:10}" Fixture.attributes_doc1
           (VNum 42) (VNum 10));
    vm_compute; reflexivity.
Defined.

Lemma createFork_without_history_witness :
  refs Fixture.forked_doc3 = refs Fixture.world0
  /\ (exists record,
        List.find (matches {| documentId := "hungry-cat"; tenantId := "t1" |})
          (documents "documents" Fixture.forked_doc3) = Some record
        /\ prop record "sequenceNumber" = VNum 0
        /\ prop (prop record "parent") "sequenceNumber" = VNum 0
        /\ prop (prop record "parent") "minimumSequenceNumber" = VNum 0)
  /\ (exists envelope,
        sent Fixture.forked_doc3
        = sent Fixture.world0 ++ [(Fixture.JSON_stringify envelope, "doc3")]
        /\ prop (prop (prop envelope "operation") "contents") "sequenceNumber"
           = VNum 0
        /\ prop (prop (prop envelope "operation") "contents") "minSequenceNumber"
           = VNum 0).
Proof.
  apply (createFork_without_history Fixture.JSON_parse Fixture.JSON_stringify
           Fixture.Buffer_base64_utf8 "documents" "t1" "doc3" Fixture.world0
           "hungry-cat" Fixture.forked_doc3);
    vm_compute; reflexivity.
Defined.

Lemma createFork_announcement_witness :
  exists envelope,
    sent Fixture.forked_doc1 = [(Fixture.JSON_stringify envelope, "doc1")]
    /\ prop (prop envelope "operation") "type" = VStr "Fork"
    /\ prop (prop (prop envelope "operation") "contents") "documentId"
       = VStr "hungry-cat".
Proof.
  destruct (createFork_announcement Fixture.JSON_parse Fixture.JSON_stringify
              Fixture.Buffer_base64_utf8 "documents" "t1" "doc1" Fixture.world0
              "hungry-cat" Fixture.forked_doc1)
    as (envelope & Hsent & _ & _ & _ & _ & Htype & _ & _ & _ & Hid & _).
  - vm_compute. reflexivity.
  - exists envelope. auto.
Defined.

Lemma createFork_one_name_witness :
  "hungry-cat" = moniker Fixture.world0 (chosen Fixture.world0)
  /\ In (CUpsertRef "t1" "hungry-cat" "c0ffee") (trace Fixture.forked_doc1)
  /\ In (CUpdate "documents" {| documentId := "doc1"; tenantId := "t1" |} None
           (Some [("forks",
                   VObj [("documentId", VStr "hungry-cat"); ("tenantId", VStr "t1")])]))
        (trace Fixture.forked_doc1).
Proof.
  destruct (createFork_one_name Fixture.JSON_parse Fixture.JSON_stringify
              Fixture.Buffer_base64_utf8 "documents" "t1" "doc1" Fixture.world0
              "hungry-cat" Fixture.forked_doc1)
    as (Hname & _ & Href & _ & Hentry & _).
  - vm_compute. reflexivity.
  - split; [exact Hname|]. split; [|exact Hentry].
    apply (Href "c0ffee"). vm_compute. reflexivity.
Defined.

Lemma createFork_returns_last_witness :
  exists sn msn,
    trace Fixture.forked_doc1 =
      [CGetTenant "t1"; CGetRef "t1" "doc1";
       CGetContent "t1" "c0ffee" ".attributes";
       CUpsertRef "t1" "hungry-cat" "c0ffee";
       CGetDatabase;
       CInsertOne "documents" (fork_record "t1" "doc1" "hungry-cat" sn msn 1000);
       CUpdate "documents" {| documentId := "doc1"; tenantId := "t1" |} None
         (Some [("forks", fork_entry "t1" "hungry-cat")]);
       CSend (Fixture.JSON_stringify
                (integrateMessage "t1" "doc1" sn msn "hungry-cat" 1001)) "doc1"].
Proof.
  destruct (createFork_returns_last Fixture.JSON_parse Fixture.JSON_stringify
              Fixture.Buffer_base64_utf8 "documents" "t1" "doc1" Fixture.world0
              "hungry-cat" Fixture.forked_doc1)
    as (sn & msn & Htrace & _).
  - vm_compute. reflexivity.
  - exists sn, msn. exact Htrace.
Defined.

Lemma createFork_then_getForks_witness :
  exists w'',
    getForks "documents" "t1" "doc1" Fixture.forked_doc1
    = (inr (VArr ([] ++ [fork_entry "t1" "hungry-cat"])), w'')
    /\ List.filter (fun entry => is_str "hungry-cat" (prop entry "documentId"))
         ([] ++ [fork_entry "t1" "hungry-cat"])
       = [fork_entry "t1" "hungry-cat"].
Proof.
  apply (createFork_then_getForks Fixture.JSON_parse Fixture.JSON_stringify
           Fixture.Buffer_base64_utf8 "documents" "t1" "doc1" Fixture.world0
           "hungry-cat" Fixture.forked_doc1 (Fixture.root_record "t1" "doc1") []);
    vm_compute; reflexivity.
Defined.

Lemma createFork_corrupt_attributes_witness :
  exists e w',
    createFork_at "documents" "t1" "doc2" Fixture.world0 = (inl e, w')
    /\ collections w' = collections Fixture.world0
    /\ sent w' = sent Fixture.world0.
Proof.
  destruct (createFork_corrupt_attributes Fixture.JSON_parse Fixture.JSON_stringify
              Fixture.Buffer_base64_utf8 "documents" "t1" "doc2" Fixture.world0
              "badbad")
    as (e & w' & Hrun & Hcoll & Hsent & _).
  - vm_compute. reflexivity.
  - right. exists "not json". split; vm_compute; reflexivity.
  - exists e, w'. auto.
Defined.

Lemma getOrCreateDocument_twice_witness :
  exists r1 w1 r2 w2,
    getOrCreateDocument "documents" "t1" "doc9" Fixture.world0 = (inr r1, w1)
    /\ getOrCreateDocument "documents" "t1" "doc9" w1 = (inr r2, w2)
    /\ existing r1 = false
    /\ existing r2 = true
    /\ found r2 = found r1.
Proof.
  destruct (getOrCreateDocument_twice "documents" "t1" "doc9" Fixture.world0)
    as (r1 & w1 & r2 & w2 & H1 & H2 & He1 & _ & _ & _ & _ & He2 & Hsame & _).
  - intros c. reflexivity.
  - vm_compute. reflexivity.
  - exists r1, w1, r2, w2. auto.
Defined.

(** C2, the claim as written, fails: forking ["doc2"], whose attributes blob
    is not JSON, is rejected with the SyntaxError of the parse, and the ref
    named after the fork, absent before, is there afterwards. *)
Lemma createFork_malformed_attributes_leaves_ref :
  (createFork_at "documents" "t1" "doc2" Fixture.world0).1 = inl SyntaxError
  /\ refs Fixture.world0 !! ("t1", "hungry-cat") = None
  /\ refs (createFork_at "documents" "t1" "doc2" Fixture.world0).2
       !! ("t1", "hungry-cat") = Some "badbad".
Proof. vm_compute. repeat split; reflexivity. Qed.

(** C3, the claim as written, fails: the record created for a new key has
    no minimumSequenceNumber, so the field reads [undefined], not 0. *)
Lemma getOrCreateDocument_no_minimumSequenceNumber :
  exists r w1,
    getOrCreateDocument "documents" "t1" "doc9" Fixture.world0 = (inr r, w1)
    /\ existing r = false
    /\ prop (found r) "minimumSequenceNumber" = VUndefined
    /\ prop (found r) "minimumSequenceNumber" <> VNum 0.
Proof.
  eexists _, _. split; [reflexivity|]. simpl. repeat split; discriminate.
Qed.

(** C4. [getForks] for a key without a record: ["ghost"] has no record in
    the test world, [findOne] answers [null], and [document.forks] throws a
    TypeError instead of the empty sequence being returned. *)
Theorem getForks_absent_record_throws :
  List.find (matches {| documentId := "ghost"; tenantId := "t1" |})
    (documents "documents" Fixture.world0) = None
  /\ (getForks "documents" "t1" "ghost" Fixture.world0).1 = inl (TypeError "forks").
Proof. vm_compute. split; reflexivity. Qed.

(** C8, the claim as written, fails: ["ghost"] has no record, [createFork]
    returns a name all the same, and [getForks] on ["ghost"] afterwards
    throws instead of answering a sequence that holds the name. *)
Lemma createFork_unrecorded_parent_getForks_throws :
  (createFork_at "documents" "t1" "ghost" Fixture.world0).1 = inr "hungry-cat"
  /\ (getForks "documents" "t1" "ghost" Fixture.forked_ghost).1
     = inl (TypeError "forks").
Proof. vm_compute. split; reflexivity. Qed.

(** ** Invariants of runs, composed *)

Section Keeps.

Variable R : World -> World -> Prop.
Hypothesis HR : Quiet R.

Lemma keeps_still {A} (m : M A) : (forall w, (m w).2 = w) -> keeps R m.
Proof. intros H w. rewrite H. apply (quiet_refl R HR). Qed.

Lemma keeps_ret {A} (a : A) : keeps R (ret a).
Proof. apply keeps_still. reflexivity. Qed.

Lemma keeps_throw {A} e : keeps R (@throw A e).
Proof. apply keeps_still. reflexivity. Qed.

Lemma keeps_await {A} (p : Outcome A) : keeps R (await p).
Proof. apply keeps_still. reflexivity. Qed.

Lemma keeps_get_prop o k : keeps R (get_prop o k).
Proof. apply keeps_still. intros w. destruct o; reflexivity. Qed.

Lemma keeps_parse JSON_parse text : keeps R (parse JSON_parse text).
Proof.
  apply keeps_still. intros w. unfold parse. destruct (JSON_parse text); reflexivity.
Qed.

Lemma keeps_Date_now : keeps R Date_now.
Proof. intros w. apply (quiet_tick R HR). Qed.

Lemma keeps_moniker_choose : keeps R moniker_choose.
Proof. intros w. apply (quiet_draw_name R HR). Qed.

Lemma keeps_winston_info line : keeps R (winston_info line).
Proof. intros w. apply (quiet_log_line R HR). Qed.

Lemma keeps_bind {A B} (m : M A) (k : A -> M B) :
  keeps R m -> (forall a, keeps R (k a)) -> keeps R (bind m k).
Proof.
  intros Hm Hk w. unfold bind. specialize (Hm w).
  destruct (m w) as [[e | a] w1]; simpl in *; [exact Hm|].
  eapply (quiet_trans R HR); [exact Hm | apply Hk].
Qed.

(** The same, knowing something of what [m] returns. *)
Lemma keeps_bind_returning {A B} (P : A -> Prop) (m : M A) (k : A -> M B) :
  (forall w a w', m w = (inr a, w') -> P a) ->
  keeps R m -> (forall a, P a -> keeps R (k a)) -> keeps R (bind m k).
Proof.
  intros HP Hm Hk w. unfold bind. specialize (Hm w). specialize (HP w).
  destruct (m w) as [[e | a] w1]; simpl in *; [exact Hm|].
  eapply (quiet_trans R HR); [exact Hm | apply Hk; eauto].
Qed.

Lemma keeps_start {A} (m : M A) : keeps R m -> keeps R (start m).
Proof.
  intros Hm w. unfold start. specialize (Hm w). destruct (m w). exact Hm.
Qed.

Lemma keeps_invoke {A} c (body : M A) : keeps R body -> keeps R (invoke c body).
Proof.
  intros Hbody w. unfold invoke. destruct (down w c); simpl.
  - apply (quiet_record_call R HR).
  - eapply (quiet_trans R HR); [apply (quiet_record_call R HR) | apply Hbody].
Qed.

Lemma keeps_getTenant tenantId : keeps R (getTenant tenantId).
Proof. apply keeps_invoke, keeps_ret. Qed.

Lemma keeps_getRef tenant id : keeps R (getRef tenant id).
Proof. apply keeps_invoke, keeps_still. reflexivity. Qed.

Lemma keeps_getContent tenant commit path : keeps R (getContent tenant commit path).
Proof.
  apply keeps_invoke, keeps_still. intros w. destruct (blobs w !! _); reflexivity.
Qed.

Lemma keeps_getDatabase : keeps R getDatabase.
Proof. apply keeps_invoke, keeps_ret. Qed.

Lemma keeps_findOne coll k : keeps R (findOne coll k).
Proof. apply keeps_invoke, keeps_still. reflexivity. Qed.

Lemma keeps_upsertRef tenant name commit :
  (forall w, R w (set_refs (insert (tenant, name) commit) w)) ->
  keeps R (upsertRef tenant name commit).
Proof. intros H. apply keeps_invoke. intros w. apply H. Qed.

Lemma keeps_insertOne coll doc :
  (forall w, R w (set_collections (insert coll (documents coll w ++ [doc])) w)) ->
  keeps R (insertOne coll doc).
Proof.
  intros H. apply keeps_invoke. intros w. simpl.
  destruct (key_of doc); [destruct (existsb _ _)|]; simpl;
    solve [apply (quiet_refl R HR) | apply H].
Qed.

Lemma keeps_update coll k set addToSet :
  (forall w,
      R w (set_collections
             (insert coll
                (update_first (matches k) (apply_update set addToSet)
                   (documents coll w))) w)) ->
  keeps R (update coll k set addToSet).
Proof. intros H. apply keeps_invoke. intros w. apply H. Qed.

Lemma keeps_findOrCreate coll k dflt :
  (forall w, R w (set_collections (insert coll (documents coll w ++ [dflt])) w)) ->
  keeps R (findOrCreate coll k dflt).
Proof.
  intros H. apply keeps_invoke. intros w. simpl.
  destruct (List.find _ _); simpl; solve [apply (quiet_refl R HR) | apply H].
Qed.

Lemma keeps_send message key :
  (forall w, R w (set_sent (fun l => l ++ [(message, key)]) w)) ->
  keeps R (send message key).
Proof. intros H. apply keeps_invoke. intros w. apply H. Qed.

Lemma keeps_fails_within {A} (m : M A) : keeps R m -> fails_within R m.
Proof. intros Hm w e w' Hrun. specialize (Hm w). rewrite Hrun in Hm. exact Hm. Qed.

Lemma fails_within_bind {A B} (m : M A) (k : A -> M B) :
  keeps R m -> (forall a, fails_within R (k a)) -> fails_within R (bind m k).
Proof.
  intros Hm Hk w e w'. unfold bind. specialize (Hm w).
  destruct (m w) as [[e1 | a] w1]; simpl in *; intros Hrun.
  - inversion Hrun; subst. exact Hm.
  - eapply (quiet_trans R HR); [exact Hm | eapply Hk; exact Hrun].
Qed.

End Keeps.

Create HintDb keeps.
#[local] Hint Resolve keeps_ret keeps_throw keeps_await keeps_get_prop keeps_parse
  keeps_Date_now keeps_moniker_choose keeps_winston_info keeps_bind keeps_start
  keeps_getTenant keeps_getRef keeps_getContent keeps_getDatabase keeps_findOne
  : keeps.

Lemma Quiet_same_stores : Quiet same_stores.
Proof.
  split; unfold same_stores; simpl; auto.
  intros w1 w2 w3 (-> & -> & -> & ->) (-> & -> & -> & ->). auto.
Qed.

Lemma Quiet_same_sent : Quiet same_sent.
Proof.
  split; unfold same_sent; simpl; auto.
  intros w1 w2 w3 -> ->. reflexivity.
Qed.

Lemma Quiet_same_git_but tenant name : Quiet (same_git_but tenant name).
Proof.
  split; unfold same_git_but; simpl; auto.
  intros w1 w2 w3 [-> H12] [-> H23]. split; [reflexivity|].
  intros key Hkey. rewrite H23, H12 by exact Hkey. reflexivity.
Qed.

Lemma Quiet_records_kept : Quiet records_kept.
Proof.
  split; unfold records_kept; simpl; eauto.
  intros w1 w2 w3 H12 H23 coll k doc Hdoc.
  destruct (H12 coll k doc Hdoc) as (doc2 & Hdoc2 & Hsame2).
  destruct (H23 coll k doc2 Hdoc2) as (doc3 & Hdoc3 & Hsame3).
  exists doc3. split; [exact Hdoc3|].
  intros field Hfield. rewrite Hsame3, Hsame2 by exact Hfield. reflexivity.
Qed.

Lemma Quiet_same_but_record coll k : Quiet (same_but_record coll k).
Proof.
  split; unfold same_but_record; simpl; auto.
  intros w1 w2 w3 (-> & -> & -> & H12) (-> & -> & -> & H23).
  repeat split. intros coll' k' Hother.
  rewrite H23, H12 by exact Hother. reflexivity.
Qed.

Lemma fails_within_bind_last {A B} R (m : M A) (k : A -> M B) :
  fails_within R m ->
  (forall a w e w', k a w <> (inl e, w')) ->
  fails_within R (bind m k).
Proof.
  intros Hm Hk w e w'. unfold bind.
  destruct (m w) as [[e1 | a] w1] eqn:Hrun; intros H.
  - inversion H; subst. eapply Hm. exact Hrun.
  - destruct (Hk _ _ _ _ H).
Qed.

Lemma fails_within_send message key :
  fails_within same_sent (send message key).
Proof.
  intros w e w'. unfold send, invoke. destruct (down w _); intros H; inversion H.
  reflexivity.
Qed.

Lemma find_app_miss (P : value -> bool) docs doc :
  P doc = false -> List.find P (docs ++ [doc]) = List.find P docs.
Proof.
  intros HP. induction docs as [|d docs IH]; simpl; [rewrite HP; reflexivity|].
  destruct (P d); [reflexivity | exact IH].
Qed.

Lemma documents_insert_eq coll docs w :
  documents coll (set_collections (insert coll docs) w) = docs.
Proof. unfold documents. simpl. rewrite lookup_insert_eq. reflexivity. Qed.

Lemma documents_insert_ne coll coll' docs w :
  coll' <> coll ->
  documents coll' (set_collections (insert coll docs) w) = documents coll' w.
Proof.
  intros Hne. unfold documents. simpl. rewrite lookup_insert_ne by congruence.
  reflexivity.
Qed.

Lemma records_kept_insert coll doc w :
  records_kept w (set_collections (insert coll (documents coll w ++ [doc])) w).
Proof.
  intros coll' k found Hfound. exists found. split; [|reflexivity].
  destruct (decide (coll' = coll)) as [->|Hne].
  - rewrite documents_insert_eq. apply find_app_found. exact Hfound.
  - rewrite documents_insert_ne by exact Hne. exact Hfound.
Qed.

Lemma records_kept_add_fork coll k entry w :
  records_kept w
    (set_collections
       (insert coll
          (update_first (matches k) (apply_update None (Some [("forks", entry)]))
             (documents coll w))) w).
Proof.
  intros coll' k' found Hfound.
  destruct (decide (coll' = coll)) as [->|Hne].
  - rewrite documents_insert_eq.
    assert (Hkey : forall d,
               matches k' (apply_update None (Some [("forks", entry)]) d)
               = matches k' d).
    { intros d. rewrite apply_update_append. apply matches_append_forks. }
    destruct (find_update_first k' (matches k) _ _ found Hkey Hfound) as [H | H].
    + exists found. auto.
    + eexists. split; [exact H|]. intros field Hfield.
      rewrite apply_update_append. apply prop_append_prop_ne. exact Hfield.
  - rewrite documents_insert_ne by exact Hne. exists found. auto.
Qed.

(** ** The collaborators, run forward *)

Lemma getDatabase_up w :
  down w CGetDatabase = false ->
  getDatabase w = (inr tt, record_call CGetDatabase w).
Proof. intros H. unfold getDatabase. rewrite invoke_up by exact H. reflexivity. Qed.

Lemma getTenant_up tenantId w :
  down w (CGetTenant tenantId) = false ->
  getTenant tenantId w = (inr tenantId, record_call (CGetTenant tenantId) w).
Proof. intros H. unfold getTenant. rewrite invoke_up by exact H. reflexivity. Qed.

Lemma getRef_up tenant id w :
  down w (CGetRef tenant id) = false ->
  getRef tenant id w =
    (inr ((fun commit => {| ref := id; object := {| sha := commit |} |})
            <$> refs w !! (tenant, id)),
     record_call (CGetRef tenant id) w).
Proof. intros H. unfold getRef. rewrite invoke_up by exact H. reflexivity. Qed.

Lemma findOne_up coll k w :
  down w (CFindOne coll k) = false ->
  findOne coll k w =
    (inr (default VNull (List.find (matches k) (documents coll w))),
     record_call (CFindOne coll k) w).
Proof. intros H. unfold findOne. rewrite invoke_up by exact H. reflexivity. Qed.

Lemma insertOne_fresh coll doc k w :
  key_of doc = Some k ->
  down w (CInsertOne coll doc) = false ->
  existsb (matches k) (documents coll w) = false ->
  insertOne coll doc w =
    (inr tt,
     set_collections (insert coll (documents coll w ++ [doc]))
       (record_call (CInsertOne coll doc) w)).
Proof.
  intros Hk Hup Hfresh. unfold insertOne. rewrite invoke_up by exact Hup.
  rewrite Hk.
  change (documents coll (record_call (CInsertOne coll doc) w))
    with (documents coll w).
  rewrite Hfresh. reflexivity.
Qed.

Lemma insertOne_duplicate coll doc k w :
  key_of doc = Some k ->
  down w (CInsertOne coll doc) = false ->
  existsb (matches k) (documents coll w) = true ->
  insertOne coll doc w =
    (inl (DuplicateKey doc), record_call (CInsertOne coll doc) w).
Proof.
  intros Hk Hup Hdup. unfold insertOne. rewrite invoke_up by exact Hup.
  rewrite Hk.
  change (documents coll (record_call (CInsertOne coll doc) w))
    with (documents coll w).
  rewrite Hdup. reflexivity.
Qed.

Lemma update_up coll k set addToSet w :
  down w (CUpdate coll k set addToSet) = false ->
  update coll k set addToSet w =
    (inr tt,
     set_collections
       (insert coll
          (update_first (matches k) (apply_update set addToSet) (documents coll w)))
       (record_call (CUpdate coll k set addToSet) w)).
Proof. intros H. unfold update. rewrite invoke_up by exact H. reflexivity. Qed.

Lemma send_up message key w :
  down w (CSend message key) = false ->
  send message key w =
    (inr tt,
     set_sent (fun l => l ++ [(message, key)]) (record_call (CSend message key) w)).
Proof. intros H. unfold send. rewrite invoke_up by exact H. reflexivity. Qed.

Section MoreFacts.

Variable JSON_parse : string -> option value.
Variable JSON_stringify : value -> string.
Variable Buffer_base64_utf8 : string -> string.

Abbreviation createFork := (createFork JSON_parse JSON_stringify Buffer_base64_utf8).
Abbreviation sequencing := (sequencing JSON_parse Buffer_base64_utf8).
Abbreviation sendIntegrateStream := (sendIntegrateStream JSON_stringify).
Abbreviation persist_and_announce := (persist_and_announce JSON_stringify).
Abbreviation readable := (readable JSON_parse Buffer_base64_utf8).

(** [createFork] keeps every quiet relation that its four writes keep: the
    ref of the fork, the insert of a record, the append to the forks of the
    parent and the send. *)
Lemma createFork_keeps R coll t id w :
  Quiet R ->
  (forall commit w0,
      R w0 (set_refs (insert (t, moniker w (chosen w)) commit) w0)) ->
  (forall doc w0,
      R w0 (set_collections (insert coll (documents coll w0 ++ [doc])) w0)) ->
  (forall w0,
      R w0 (set_collections
              (insert coll
                 (update_first (matches {| documentId := id; tenantId := t |})
                    (apply_update None
                       (Some [("forks", fork_entry t (moniker w (chosen w)))]))
                    (documents coll w0))) w0)) ->
  (forall message key w0,
      R w0 (set_sent (fun l => l ++ [(message, key)]) w0)) ->
  R w (createFork coll t id w).2.
Proof.
  intros HR Href Hins Hupd Hsend.
  unfold createFork. erewrite bind_run_inr by reflexivity.
  eapply (quiet_trans R HR); [apply (quiet_draw_name R HR)|].
  match goal with
  | |- _ _ (?m ?w0).2 => assert (Hk : keeps R m); [|exact (Hk w0)]
  end.
  apply (keeps_bind_returning R HR (eq t)); [|auto with keeps|].
  { intros w0 tenant w1 Hrun. apply getTenant_inr in Hrun as (_ & -> & _).
    reflexivity. }
  intros tenant <-.
  apply (keeps_bind R HR); [auto with keeps|]. intros head.
  apply (keeps_bind R HR); [auto with keeps|]. intros _.
  apply (keeps_bind R HR).
  - destruct head as [h|]; simpl; [|auto with keeps].
    repeat (apply (keeps_bind R HR); [|intros]); auto with keeps.
    + apply keeps_start, (keeps_upsertRef R HR). intros w0. apply Href.
    + destruct a1. repeat (apply (keeps_bind R HR); [|intros]); auto with keeps.
  - intros [sn msn].
    repeat (apply (keeps_bind R HR); [|intros]); auto with keeps.
    + apply keeps_start, (keeps_insertOne R HR). intros w0. apply Hins.
    + apply (keeps_update R HR). exact Hupd.
    + apply (keeps_send R HR). intros w0. apply Hsend.
Qed.


(** X1. In every run of [createFork], returned or failed, the blobs are
    untouched and so is every ref but the one named by the generated name
    in the tenant's namespace. *)
Theorem createFork_git_frame coll t id w :
  blobs (createFork coll t id w).2 = blobs w
  /\ forall key,
       key <> (t, moniker w (chosen w)) ->
       refs (createFork coll t id w).2 !! key = refs w !! key.
Proof.
  apply (createFork_keeps (same_git_but t (moniker w (chosen w)))).
  - apply Quiet_same_git_but.
  - intros commit w0. split; [reflexivity|]. intros key Hkey. simpl.
    apply lookup_insert_ne. congruence.
  - intros doc w0. split; reflexivity.
  - intros w0. split; reflexivity.
  - intros message key w0. split; reflexivity.
Qed.

(** X2. In every run of [createFork], returned or failed, no record is
    lost and no field of a record other than [forks] is changed: a record
    found under a key before is found under it afterwards with its
    documentId, tenantId, sequenceNumber, parent and createTime as they
    were. *)
Theorem createFork_keeps_records coll t id w coll' k doc :
  List.find (matches k) (documents coll' w) = Some doc ->
  exists doc',
    List.find (matches k) (documents coll' (createFork coll t id w).2) = Some doc'
    /\ forall field, field <> "forks" -> prop doc' field = prop doc field.
Proof.
  revert coll' k doc. change (records_kept w (createFork coll t id w).2).
  apply createFork_keeps.
  - apply Quiet_records_kept.
  - intros commit w0 coll' k doc Hdoc. exists doc. auto.
  - intros doc w0. apply records_kept_insert.
  - intros w0. apply records_kept_add_fork.
  - intros message key w0 coll' k doc Hdoc. exists doc. auto.
Qed.

(** X3. A run of [createFork] that fails has announced nothing: whatever
    step failed, the messages with the producer are those from before. *)
Theorem createFork_failure_unannounced coll t id w e w' :
  createFork coll t id w = (inl e, w') -> sent w' = sent w.
Proof.
  pose proof Quiet_same_sent as HR.
  revert w e w'. change (fails_within same_sent (createFork coll t id)).
  unfold createFork.
  apply (fails_within_bind _ HR); [auto with keeps|]. intros name.
  apply (fails_within_bind _ HR); [auto with keeps|]. intros tenant.
  apply (fails_within_bind _ HR); [auto with keeps|]. intros head.
  apply (fails_within_bind _ HR); [auto with keeps|]. intros _.
  apply (fails_within_bind _ HR).
  { destruct head as [h|]; simpl; [|auto with keeps].
    repeat (apply (keeps_bind _ HR); [|intros]); auto with keeps.
    - apply keeps_start, (keeps_upsertRef _ HR). reflexivity.
    - destruct a1. repeat (apply (keeps_bind _ HR); [|intros]); auto with keeps. }
  intros [sn msn].
  apply (fails_within_bind _ HR); [auto with keeps|]. intros db.
  apply (fails_within_bind _ HR); [auto with keeps|]. intros now.
  apply (fails_within_bind _ HR).
  { apply keeps_start, (keeps_insertOne _ HR). reflexivity. }
  intros insertFork.
  apply (fails_within_bind _ HR).
  { apply (keeps_update _ HR). reflexivity. }
  intros updateParent.
  apply (fails_within_bind _ HR); [auto with keeps|]. intros _.
  apply fails_within_bind_last; [|discriminate].
  apply (fails_within_bind _ HR); [auto with keeps|]. intros now2.
  apply fails_within_send.
Qed.

(** X4. [getDocument] and [getForks] only read: in every run, returned or
    failed, the refs, the blobs, the collections and the messages sent are
    exactly as before. *)
Theorem lookups_read_only coll t d w :
  same_stores w (getDocument coll t d w).2
  /\ same_stores w (getForks coll t d w).2.
Proof.
  pose proof Quiet_same_stores as HR. split.
  - revert w. change (keeps same_stores (getDocument coll t d)).
    unfold getDocument. apply (keeps_bind _ HR); [|intros]; auto with keeps.
  - revert w. change (keeps same_stores (getForks coll t d)).
    unfold getForks. repeat (apply (keeps_bind _ HR); [|intros]); auto with keeps.
Qed.

Lemma matches_default_record_other k t d now :
  k <> {| documentId := d; tenantId := t |} ->
  matches k (default_record t d now) = false.
Proof.
  destruct k as [d' t']. intros Hne. unfold matches. simpl.
  destruct (decide (d' = d)) as [->|Hd].
  - rewrite (bool_decide_eq_false_2 (t' = t)) by congruence.
    apply andb_false_r.
  - rewrite (bool_decide_eq_false_2 (d' = d)) by exact Hd. reflexivity.
Qed.

(** X5. In every run of [getOrCreateDocument], returned or failed, git and
    the producer are untouched and a lookup under any other key, or in any
    other collection, finds what it found before. *)
Theorem getOrCreateDocument_frame coll t d w :
  same_but_record coll {| documentId := d; tenantId := t |} w
    (getOrCreateDocument coll t d w).2.
Proof.
  pose proof (Quiet_same_but_record coll {| documentId := d; tenantId := t |}) as HR.
  revert w.
  change (keeps (same_but_record coll {| documentId := d; tenantId := t |})
            (getOrCreateDocument coll t d)).
  unfold getOrCreateDocument, getOrCreateObject.
  repeat (apply (keeps_bind _ HR); [|intros]); auto with keeps.
  apply (keeps_findOrCreate _ HR). intros w.
  repeat split. intros coll' k' [Hcoll | Hkey].
  - rewrite documents_insert_ne by exact Hcoll. reflexivity.
  - destruct (decide (coll' = coll)) as [->|Hne].
    + rewrite documents_insert_eq. apply find_app_miss.
      apply matches_default_record_other. exact Hkey.
    + rewrite documents_insert_ne by exact Hne. reflexivity.
Qed.

Lemma createFork_split coll t id w :
  createFork coll t id w =
    (let* name := moniker_choose in
     let* tenant := getTenant t in
     let* head := getRef tenant id in
     let* _ := winston_info (JSON_stringify (IRef_value head)) in
     let* (sequenceNumber, minimumSequenceNumber) := sequencing tenant name head in
     persist_and_announce coll t id name sequenceNumber minimumSequenceNumber) w.
Proof. reflexivity. Qed.

(** The branch on the head ref, when the attributes can be read. *)
Lemma sequencing_readable t name h w text attributes :
  down w (CGetContent t (sha (object h)) ".attributes") = false ->
  down w (CUpsertRef t name (sha (object h))) = false ->
  blobs w !! (t, sha (object h), ".attributes") = Some text ->
  JSON_parse (Buffer_base64_utf8 text) = Some attributes ->
  attributes <> VNull -> attributes <> VUndefined ->
  sequencing t name (Some h) w =
    (inr (prop attributes "sequenceNumber", prop attributes "minimumSequenceNumber"),
     set_refs (insert (t, name) (sha (object h)))
       (record_call (CUpsertRef t name (sha (object h)))
          (record_call (CGetContent t (sha (object h)) ".attributes") w))).
Proof.
  intros Hup1 Hup2 Htext Hattr Hnull Hundef.
  unfold sequencing.
  erewrite bind_run_inr
    by (apply start_run; rewrite getContent_run, Hup1, Htext; reflexivity).
  erewrite bind_run_inr
    by (apply start_run; rewrite upsertRef_run; simpl; rewrite Hup2; reflexivity).
  erewrite bind_run_inr by reflexivity. cbv beta iota. simpl content.
  erewrite bind_run_inr by (unfold parse; rewrite Hattr; reflexivity).
  destruct attributes; try congruence; reflexivity.
Qed.

(** [createFork] up to the store, when the tenant, the ref and the
    attributes can be read. *)
Lemma createFork_reaches_store coll t id w :
  stores_up w ->
  readable w t id ->
  exists sn msn w1,
    createFork coll t id w
    = persist_and_announce coll t id (moniker w (chosen w)) sn msn w1
    /\ collections w1 = collections w
    /\ sent w1 = sent w
    /\ down w1 = down w
    /\ clock w1 = clock w
    /\ ticks w1 = ticks w
    /\ match refs w !! (t, id) with
       | None =>
           sn = VNum StartingSequenceNumber /\ msn = VNum StartingSequenceNumber
           /\ refs w1 = refs w
       | Some commit =>
           refs w1 = <[(t, moniker w (chosen w)) := commit]> (refs w)
           /\ exists text attributes,
                blobs w !! (t, commit, ".attributes") = Some text
                /\ JSON_parse (Buffer_base64_utf8 text) = Some attributes
                /\ sn = prop attributes "sequenceNumber"
                /\ msn = prop attributes "minimumSequenceNumber"
       end.
Proof.
  intros Hup Hread. rewrite createFork_split.
  erewrite bind_run_inr by reflexivity.
  erewrite bind_run_inr by (apply getTenant_up; apply Hup; discriminate).
  erewrite bind_run_inr by (apply getRef_up; apply Hup; discriminate).
  erewrite bind_run_inr by reflexivity.
  simpl refs. unfold readable in Hread.
  destruct (refs w !! (t, id)) as [commit|].
  - destruct Hread as (text & attributes & Htext & Hattr & Hnull & Hundef).
    erewrite bind_run_inr
      by (apply (sequencing_readable t _
                   {| ref := id; object := {| sha := commit |} |} _
                   text attributes);
          solve [apply Hup; discriminate | assumption]).
    eexists _, _, _. split; [reflexivity|]. simpl.
    repeat (split; [reflexivity|]). eauto 10.
  - erewrite bind_run_inr by reflexivity.
    eexists _, _, _. split; [reflexivity|]. simpl. auto 10.
Qed.

Lemma persist_returns coll t id name sn msn w1 :
  (forall c, down w1 c = false) ->
  existsb (matches {| documentId := name; tenantId := t |}) (documents coll w1)
  = false ->
  exists w', persist_and_announce coll t id name sn msn w1 = (inr name, w').
Proof.
  intros Hup Hfresh. unfold persist_and_announce.
  erewrite bind_run_inr by (apply getDatabase_up; apply Hup).
  erewrite bind_run_inr by reflexivity.
  erewrite bind_run_inr
    by (apply start_run, (insertOne_fresh _ _ _ _ (key_of_fork_record _ _ _ _ _ _));
        [apply Hup | exact Hfresh]).
  erewrite bind_run_inr by (apply update_up; apply Hup).
  erewrite bind_run_inr by reflexivity.
  unfold sendIntegrateStream.
  erewrite bind_run_inr
    by (erewrite bind_run_inr by reflexivity; apply send_up; apply Hup).
  eexists. reflexivity.
Qed.

Lemma persist_duplicate coll t id name sn msn w1 :
  (forall c, down w1 c = false) ->
  existsb (matches {| documentId := name; tenantId := t |}) (documents coll w1)
  = true ->
  exists w',
    persist_and_announce coll t id name sn msn w1
    = (inl (DuplicateKey (fork_record t id name sn msn (clock w1 (ticks w1)))), w')
    /\ documents coll w' =
         update_first (matches {| documentId := id; tenantId := t |})
           (apply_update None (Some [("forks", fork_entry t name)]))
           (documents coll w1)
    /\ sent w' = sent w1
    /\ refs w' = refs w1.
Proof.
  intros Hup Hdup. unfold persist_and_announce.
  erewrite bind_run_inr by (apply getDatabase_up; apply Hup).
  erewrite bind_run_inr by reflexivity.
  erewrite bind_run_inr
    by (apply start_run,
          (insertOne_duplicate _ _ _ _ (key_of_fork_record _ _ _ _ _ _));
        [apply Hup | exact Hdup]).
  erewrite bind_run_inr by (apply update_up; apply Hup).
  erewrite bind_run_inl by reflexivity.
  eexists. split; [reflexivity|]. split; [|split; reflexivity].
  apply documents_insert_eq.
Qed.

Lemma persist_unsent coll t id name sn msn w1 :
  stores_up w1 ->
  (forall message key, down w1 (CSend message key) = true) ->
  existsb (matches {| documentId := name; tenantId := t |}) (documents coll w1)
  = false ->
  exists w',
    persist_and_announce coll t id name sn msn w1
    = (inl (Unavailable
              (CSend (JSON_stringify
                        (integrateMessage t id sn msn name (clock w1 (S (ticks w1)))))
                 id)), w')
    /\ documents coll w' =
         update_first (matches {| documentId := id; tenantId := t |})
           (apply_update None (Some [("forks", fork_entry t name)]))
           (documents coll w1 ++ [fork_record t id name sn msn (clock w1 (ticks w1))])
    /\ sent w' = sent w1
    /\ refs w' = refs w1.
Proof.
  intros Hup Hdown Hfresh. unfold persist_and_announce.
  erewrite bind_run_inr by (apply getDatabase_up; apply Hup; discriminate).
  erewrite bind_run_inr by reflexivity.
  erewrite bind_run_inr
    by (apply start_run, (insertOne_fresh _ _ _ _ (key_of_fork_record _ _ _ _ _ _));
        [apply Hup; discriminate | exact Hfresh]).
  erewrite bind_run_inr by (apply update_up; apply Hup; discriminate).
  erewrite bind_run_inr by reflexivity.
  unfold sendIntegrateStream.
  erewrite bind_run_inl
    by (erewrite bind_run_inr by reflexivity; apply invoke_down; apply Hdown).
  eexists. split; [reflexivity|]. split; [|split; reflexivity].
  simpl. unfold documents at 1. simpl. rewrite lookup_insert_eq. simpl.
  rewrite documents_insert_eq. reflexivity.
Qed.

Lemma all_up_stores_up w : (forall c, down w c = false) -> stores_up w.
Proof. intros H c _. apply H. Qed.

(** X6. With every boundary call going through, [createFork] returns, and
    returns the generated name, exactly when the attributes at the parent's
    head, if there is a head, decode to a value whose fields can be read,
    and no record of the tenant has the generated name. *)
Theorem createFork_returns_iff coll t id w :
  (forall c, down w c = false) ->
  (exists w', createFork coll t id w = (inr (moniker w (chosen w)), w'))
  <-> readable w t id
      /\ existsb (matches {| documentId := moniker w (chosen w); tenantId := t |})
           (documents coll w) = false.
Proof.
  intros Hup. split.
  - intros [w' Hrun]. apply createFork_inr in Hrun as [_ (sn & msn & F)].
    destruct F as [Hder _ _ Hfresh _ _ _ _ _ _]. split; [|exact Hfresh].
    unfold readable. destruct (refs w !! (t, id)); [|exact I].
    destruct Hder as (text & attributes & Htext & Hattr & Hnull & Hundef & _).
    eauto 10.
  - intros [Hread Hfresh].
    destruct (createFork_reaches_store coll t id w (all_up_stores_up w Hup) Hread)
      as (sn & msn & w1 & -> & Hcoll & _ & Hdown & _).
    apply persist_returns.
    + intros c. rewrite Hdown. apply Hup.
    + unfold documents. rewrite Hcoll. exact Hfresh.
Qed.

(** X7. When the generated name is already the id of a record of the
    tenant, [createFork] fails with the duplicate-key error of the insert,
    and announces nothing; but the update of the parent has already been
    carried out, so the [forks] of the parent now end with an entry for a
    fork that was not created. *)
Theorem createFork_name_taken coll t id w parent items :
  (forall c, down w c = false) ->
  readable w t id ->
  existsb (matches {| documentId := moniker w (chosen w); tenantId := t |})
    (documents coll w) = true ->
  List.find (matches {| documentId := id; tenantId := t |}) (documents coll w)
  = Some parent ->
  prop parent "forks" = VArr items ->
  exists doc w' parent',
    createFork coll t id w = (inl (DuplicateKey doc), w')
    /\ prop doc "documentId" = VStr (moniker w (chosen w))
    /\ sent w' = sent w
    /\ List.find (matches {| documentId := id; tenantId := t |}) (documents coll w')
       = Some parent'
    /\ prop parent' "forks" = VArr (items ++ [fork_entry t (moniker w (chosen w))]).
Proof.
  intros Hup Hread Htaken Hparent Hforks.
  destruct (createFork_reaches_store coll t id w (all_up_stores_up w Hup) Hread)
    as (sn & msn & w1 & -> & Hcoll & Hsent & Hdown & _).
  destruct (persist_duplicate coll t id (moniker w (chosen w)) sn msn w1)
    as (w' & Hrun & Hdocs & Hsent' & _).
  - intros c. rewrite Hdown. apply Hup.
  - unfold documents. rewrite Hcoll. exact Htaken.
  - eexists _, w', _. split; [exact Hrun|]. split; [reflexivity|].
    split; [congruence|].
    rewrite Hdocs. unfold documents at 1. rewrite Hcoll. fold (documents coll w).
    rewrite find_update_first_same, Hparent.
    + split; [reflexivity|]. rewrite apply_update_append.
      apply prop_append_prop_eq. exact Hforks.
    + intros d. rewrite apply_update_append. apply matches_append_forks.
Qed.

(** X8. When only the producer fails, [createFork] fails with the error of
    the send, and by then everything else is done and stays done: the fork
    record is in the collection and the entry is in the forks of the
    parent, with nothing announced. *)
Theorem createFork_unsent coll t id w :
  stores_up w ->
  (forall message key, down w (CSend message key) = true) ->
  readable w t id ->
  existsb (matches {| documentId := moniker w (chosen w); tenantId := t |})
    (documents coll w) = false ->
  exists sn msn w',
    createFork coll t id w
    = (inl (Unavailable
              (CSend (JSON_stringify
                        (integrateMessage t id sn msn (moniker w (chosen w))
                           (clock w (S (ticks w))))) id)), w')
    /\ documents coll w' =
         update_first (matches {| documentId := id; tenantId := t |})
           (apply_update None
              (Some [("forks", fork_entry t (moniker w (chosen w)))]))
           (documents coll w
              ++ [fork_record t id (moniker w (chosen w)) sn msn (clock w (ticks w))])
    /\ sent w' = sent w.
Proof.
  intros Hup Hdown Hread Hfresh.
  destruct (createFork_reaches_store coll t id w Hup Hread)
    as (sn & msn & w1 & -> & Hcoll & Hsent & Hdown1 & Hclock & Hticks & _).
  destruct (persist_unsent coll t id (moniker w (chosen w)) sn msn w1)
    as (w' & Hrun & Hdocs & Hsent' & _).
  - intros c Hc. rewrite Hdown1. apply Hup. exact Hc.
  - intros message key. rewrite Hdown1. apply Hdown.
  - unfold documents. rewrite Hcoll. exact Hfresh.
  - exists sn, msn, w'. rewrite Hclock, Hticks in Hrun, Hdocs.
    split; [exact Hrun|]. split; [|congruence].
    rewrite Hdocs. unfold documents. rewrite Hcoll. reflexivity.
Qed.

(** X9. Two forks of the same recorded parent, one after the other: the
    two names differ, and the [forks] of the parent end with the entry of
    the first fork followed by the entry of the second. *)
Theorem createFork_twice coll t id w n1 w1 n2 w2 parent items :
  createFork coll t id w = (inr n1, w1) ->
  createFork coll t id w1 = (inr n2, w2) ->
  List.find (matches {| documentId := id; tenantId := t |}) (documents coll w)
  = Some parent ->
  prop parent "forks" = VArr items ->
  n1 <> n2
  /\ exists parent2,
      List.find (matches {| documentId := id; tenantId := t |}) (documents coll w2)
      = Some parent2
      /\ prop parent2 "forks" = VArr (items ++ [fork_entry t n1; fork_entry t n2]).
Proof.
  intros Hrun1 Hrun2 Hparent Hforks.
  apply createFork_inr in Hrun1 as [-> (sn1 & msn1 & F1)].
  apply createFork_inr in Hrun2 as [-> (sn2 & msn2 & F2)].
  pose proof (forked_parent _ _ _ _ _ _ _ _ _ _ _ F1 Hparent) as Hparent1.
  pose proof (forked_parent _ _ _ _ _ _ _ _ _ _ _ F2 Hparent1) as Hparent2.
  destruct (forked_record _ _ _ _ _ _ _ _ _ _ F1) as [_ (record & Hrecord & _)].
  split.
  - intros Heq.
    destruct F2 as [_ _ _ Hfresh _ _ _ _ _ _]. rewrite <- Heq in Hfresh.
    apply find_none_existsb in Hfresh. congruence.
  - eexists. split; [exact Hparent2|].
    erewrite prop_append_prop_eq
      by (apply prop_append_prop_eq; exact Hforks).
    rewrite <- app_assoc. reflexivity.
Qed.

Lemma matches_key k doc :
  matches k doc = true ->
  prop doc "documentId" = VStr (documentId k) /\ prop doc "tenantId" = VStr (tenantId k).
Proof.
  unfold matches, is_str. intros H. apply andb_true_iff in H as [Hd Ht].
  destruct (prop doc "documentId"); try discriminate.
  destruct (prop doc "tenantId"); try discriminate.
  apply bool_decide_eq_true in Hd, Ht. subst. auto.
Qed.

Lemma matches_inj k k' doc :
  matches k doc = true -> matches k' doc = true -> k = k'.
Proof.
  intros H H'. apply matches_key in H as [Hd Ht], H' as [Hd' Ht'].
  destruct k, k'. simpl in *. congruence.
Qed.

(** An update under another key leaves the lookup alone. *)
Lemma find_update_first_other k k' f docs :
  k <> k' ->
  (forall d, matches k (f d) = matches k d) ->
  List.find (matches k) (update_first (matches k') f docs)
  = List.find (matches k) docs.
Proof.
  intros Hne Hf. induction docs as [|d docs IH]; simpl; [reflexivity|].
  destruct (matches k' d) eqn:Hd'; simpl.
  - rewrite Hf. destruct (matches k d) eqn:Hd; [|reflexivity].
    destruct (Hne (matches_inj _ _ _ Hd Hd')).
  - destruct (matches k d); [reflexivity | exact IH].
Qed.

(** X10. After [createFork] has returned a name other than the parent's
    id, [getDocument] under that name answers the inserted record: its
    documentId is the name, its forks are empty, its parent names the
    parent; and [getForks] under that name answers the empty sequence. *)
Theorem createFork_then_getDocument coll t id w n w' :
  createFork coll t id w = (inr n, w') ->
  n <> id ->
  down w (CFindOne coll {| documentId := n; tenantId := t |}) = false ->
  exists record w2 w3,
    getDocument coll t n w' = (inr record, w2)
    /\ prop record "documentId" = VStr n
    /\ prop record "forks" = VArr []
    /\ prop (prop record "parent") "documentId" = VStr id
    /\ getForks coll t n w' = (inr (VArr []), w3).
Proof.
  intros Hrun Hne Hup.
  apply createFork_inr in Hrun as [-> (sn & msn & F)].
  pose proof (forked_documents _ _ _ _ _ _ _ _ _ _ F) as Hdocs.
  destruct F as [_ _ _ Hfresh _ _ _ Hups Hdown _].
  unfold fork_calls in Hups.
  apply Forall_app in Hups as [_ Hups]. apply Forall_app in Hups as [_ Hups].
  apply Forall_cons in Hups as [Hdb _].
  assert (Hfind :
    List.find (matches {| documentId := moniker w (chosen w); tenantId := t |})
      (documents coll w')
    = Some (fork_record t id (moniker w (chosen w)) sn msn (clock w (ticks w)))).
  { rewrite Hdocs, find_update_first_other.
    - rewrite find_fresh_last by exact Hfresh.
      rewrite matches_fork_record. reflexivity.
    - congruence.
    - intros d. rewrite apply_update_append. apply matches_append_forks. }
  assert (Hdb' : down w' CGetDatabase = false) by (rewrite Hdown; exact Hdb).
  assert (Hup' : down w' (CFindOne coll
                            {| documentId := moniker w (chosen w); tenantId := t |})
                 = false) by (rewrite Hdown; exact Hup).
  eexists _, _, _. split; [|split; [|split; [|split]]].
  - unfold getDocument.
    erewrite bind_run_inr by (apply getDatabase_up; exact Hdb').
    rewrite findOne_up by exact Hup'.
    change (documents coll (record_call CGetDatabase w')) with (documents coll w').
    rewrite Hfind. reflexivity.
  - reflexivity.
  - reflexivity.
  - reflexivity.
  - rewrite (getForks_found _ _ _ _ _ Hdb' Hup' Hfind). reflexivity.
Qed.

(** X11. Nothing keeps the generated name apart from the parent's id: when
    the parent has no record and the name drawn is its id, a [createFork]
    that returns leaves, under that id, a record that names itself as its
    parent. *)
Theorem createFork_own_name coll t id w w' :
  createFork coll t id w = (inr id, w') ->
  List.find (matches {| documentId := id; tenantId := t |}) (documents coll w) = None
  /\ exists record,
      List.find (matches {| documentId := id; tenantId := t |}) (documents coll w')
      = Some record
      /\ prop record "documentId" = VStr id
      /\ prop (prop record "parent") "documentId" = VStr id.
Proof.
  intros Hrun.
  apply createFork_inr in Hrun as [Hname (sn & msn & F)].
  destruct (forked_record _ _ _ _ _ _ _ _ _ _ F) as [Hnone (record & Hfind & Hsame)].
  rewrite <- Hname in Hnone, Hfind, Hsame.
  split; [exact Hnone|]. exists record. split; [exact Hfind|].
  rewrite !Hsame by discriminate. split; reflexivity.
Qed.

(** X17. When the tenant or the head ref of the parent cannot be resolved,
    [createFork] fails before it has written anything: the refs, the blobs,
    the collections and the messages sent are exactly as before. *)
Theorem createFork_unresolved coll t id w :
  down w (CGetTenant t) = true \/ down w (CGetRef t id) = true ->
  exists e w',
    createFork coll t id w = (inl e, w')
    /\ refs w' = refs w /\ blobs w' = blobs w
    /\ collections w' = collections w /\ sent w' = sent w.
Proof.
  intros Hdown. rewrite createFork_split.
  erewrite bind_run_inr by reflexivity.
  destruct (down w (CGetTenant t)) eqn:Hup1.
  - erewrite bind_run_inl by (apply invoke_down; exact Hup1).
    eexists _, _. split; [reflexivity|]. auto.
  - destruct Hdown as [Hdown | Hdown]; [discriminate|].
    erewrite bind_run_inr by (apply getTenant_up; exact Hup1).
    erewrite bind_run_inl by (apply invoke_down; exact Hdown).
    eexists _, _. split; [reflexivity|]. auto.
Qed.

End MoreFacts.

(** ** Lookups and creation, once more *)

(** X12. [getForks] on a recorded document does not throw: it answers the
    [forks] of the record when that is an array, the empty one included,
    and the empty sequence when the record has no [forks] or has it null. *)
Theorem getForks_recorded coll t d w doc :
  down w CGetDatabase = false ->
  down w (CFindOne coll {| documentId := d; tenantId := t |}) = false ->
  List.find (matches {| documentId := d; tenantId := t |}) (documents coll w)
  = Some doc ->
  exists forks w',
    getForks coll t d w = (inr forks, w')
    /\ (forall items, prop doc "forks" = VArr items -> forks = VArr items)
    /\ (prop doc "forks" = VUndefined \/ prop doc "forks" = VNull ->
        forks = VArr []).
Proof.
  intros Hup1 Hup2 Hfind.
  rewrite (getForks_found _ _ _ _ _ Hup1 Hup2 Hfind).
  eexists _, _. split; [reflexivity|]. split.
  - intros items ->. reflexivity.
  - intros [-> | ->]; reflexivity.
Qed.

Lemma getOrCreateDocument_inr coll t d w r w1 :
  getOrCreateDocument coll t d w = (inr r, w1) ->
  down w CGetDatabase = false
  /\ down w (CFindOrCreate coll {| documentId := d; tenantId := t |}
               (default_record t d (clock w (ticks w)))) = false.
Proof.
  unfold getOrCreateDocument, getOrCreateObject. intros H.
  apply bind_inr in H as (db & w2 & Hdb & H).
  apply getDatabase_inr in Hdb as (Hup1 & ->).
  apply bind_inr in H as (now & w2 & Hnow & H).
  apply Date_now_inr in Hnow as [-> ->].
  apply bind_inr in H as (result & w2 & Hfind & _).
  apply invoke_inr in Hfind as [Hup2 _]. auto.
Qed.

(** X13. [getOrCreateDocument] for a key that has a record returns that
    record, [existing = true], and writes nothing: the collections are as
    they were, the record keeps its createTime and every other field. *)
Theorem getOrCreateDocument_existing coll t d w doc r w1 :
  List.find (matches {| documentId := d; tenantId := t |}) (documents coll w)
  = Some doc ->
  getOrCreateDocument coll t d w = (inr r, w1) ->
  existing r = true /\ found r = doc /\ collections w1 = collections w.
Proof.
  intros Hfind Hrun.
  destruct (getOrCreateDocument_inr _ _ _ _ _ _ Hrun) as [Hup1 Hup2].
  rewrite (getOrCreateDocument_run _ _ _ _ Hup1 Hup2) in Hrun.
  simpl in Hrun. rewrite Hfind in Hrun. inversion Hrun; subst. auto.
Qed.

(** X14. What [getOrCreateDocument] returns is what [getDocument] finds
    afterwards under the same key, whether the record was there or has
    just been created. *)
Theorem getOrCreateDocument_then_getDocument coll t d w r w1 :
  getOrCreateDocument coll t d w = (inr r, w1) ->
  down w (CFindOne coll {| documentId := d; tenantId := t |}) = false ->
  exists w2, getDocument coll t d w1 = (inr (found r), w2).
Proof.
  intros Hrun Hup.
  destruct (getOrCreateDocument_inr _ _ _ _ _ _ Hrun) as [Hup1 Hup2].
  rewrite (getOrCreateDocument_run _ _ _ _ Hup1 Hup2) in Hrun. simpl in Hrun.
  assert (Hlook : forall w0,
             down w0 = down w ->
             List.find (matches {| documentId := d; tenantId := t |})
               (documents coll w0) = Some (found r) ->
             exists w2, getDocument coll t d w0 = (inr (found r), w2)).
  { intros w0 Hdown Hfind. unfold getDocument.
    erewrite bind_run_inr by (apply getDatabase_up; rewrite Hdown; exact Hup1).
    rewrite findOne_up by (simpl; rewrite Hdown; exact Hup).
    change (documents coll (record_call CGetDatabase w0)) with (documents coll w0).
    rewrite Hfind. eauto. }
  destruct (List.find _ (documents coll w)) as [doc|] eqn:Hfind;
    inversion Hrun; subst; clear Hrun; apply Hlook; try reflexivity; simpl.
  - exact Hfind.
  - rewrite documents_insert_eq.
    rewrite find_fresh_last by (apply find_none_existsb; exact Hfind).
    rewrite matches_default_record. reflexivity.
Qed.

(** ** Versions *)

Section VersionFacts.

Variables ICommitDetails ICommit : Type.
Variable getCommits : string -> string -> Z -> M (list ICommitDetails).
Variable getCommit : string -> string -> M ICommit.

Abbreviation getVersions := (getVersions ICommitDetails getCommits).
Abbreviation getLatestVersion := (getLatestVersion ICommitDetails getCommits).
Abbreviation getVersion := (getVersion ICommit getCommit).

(** X15. [getLatestVersion] asks the git manager of the tenant for one
    commit of the document and settles as that read settles: rejected with
    its error, resolved with the first commit it lists, and resolved with
    null, not rejected, when it lists none. *)
Theorem getLatestVersion_result t d w outcome w' :
  down w (CGetTenant t) = false ->
  getCommits t d 1 (record_call (CGetTenant t) w) = (outcome, w') ->
  getLatestVersion t d w =
    (match outcome with
     | inl e => inl e
     | inr commits => inr (head commits)
     end, w').
Proof.
  intros Hup Hgit.
  unfold getLatestVersion, getVersions, then_.
  rewrite getTenant_up by exact Hup. rewrite Hgit.
  destruct outcome as [e | [|c commits]]; reflexivity.
Qed.

(** X16. The hand-made promises of [getVersions] and [getVersion] add
    nothing and hide nothing: once the tenant is resolved the outcome is
    the outcome of the read of the git manager, error or value, and when
    the tenant is not resolved the git manager is not asked.  [getVersion]
    never looks at the document id. *)
Theorem versions_pass_through t d d' count commit w :
  getVersions t d count w
  = (if down w (CGetTenant t)
     then (inl (Unavailable (CGetTenant t)), record_call (CGetTenant t) w)
     else getCommits t d count (record_call (CGetTenant t) w))
  /\ getVersion t d commit w
     = (if down w (CGetTenant t)
        then (inl (Unavailable (CGetTenant t)), record_call (CGetTenant t) w)
        else getCommit t commit (record_call (CGetTenant t) w))
  /\ getVersion t d commit w = getVersion t d' commit w.
Proof.
  unfold getVersions, getVersion, then_, getTenant, invoke.
  destruct (down w (CGetTenant t)); simpl.
  - auto.
  - split; [|split; [|reflexivity]].
    + destruct (getCommits t d count _) as [[e | commits] w']; reflexivity.
    + destruct (getCommit t commit _) as [[e | c] w']; reflexivity.
Qed.

End VersionFacts.

(** ** The test world, run once more *)

Abbreviation run_at w id :=
  (createFork Fixture.JSON_parse Fixture.JSON_stringify Fixture.Buffer_base64_utf8
     "documents" "t1" id w).

Lemma createFork_keeps_records_witness :
  exists doc',
    List.find (matches {| documentId := "doc3"; tenantId := "t1" |})
      (documents "documents" (run_at Fixture.world0 "doc1").2) = Some doc'
    /\ forall field,
         field <> "forks" ->
         prop doc' field = prop (Fixture.root_record "t1" "doc3") field.
Proof.
  apply (createFork_keeps_records Fixture.JSON_parse Fixture.JSON_stringify
           Fixture.Buffer_base64_utf8 "documents" "t1" "doc1" Fixture.world0
           "documents" {| documentId := "doc3"; tenantId := "t1" |}).
  vm_compute. reflexivity.
Defined.

Lemma createFork_failure_unannounced_witness :
  sent (run_at Fixture.world0 "doc2").2 = sent Fixture.world0.
Proof.
  apply (createFork_failure_unannounced Fixture.JSON_parse Fixture.JSON_stringify
           Fixture.Buffer_base64_utf8 "documents" "t1" "doc2" Fixture.world0
           SyntaxError).
  vm_compute. reflexivity.
Defined.

Lemma createFork_returns_iff_witness :
  (exists w', run_at Fixture.world0 "doc1" = (inr "hungry-cat", w'))
  <-> readable Fixture.JSON_parse Fixture.Buffer_base64_utf8 Fixture.world0 "t1" "doc1"
      /\ existsb (matches {| documentId := "hungry-cat"; tenantId := "t1" |})
           (documents "documents" Fixture.world0) = false.
Proof.
  apply (createFork_returns_iff Fixture.JSON_parse Fixture.JSON_stringify
           Fixture.Buffer_base64_utf8 "documents" "t1" "doc1" Fixture.world0).
  intros c. reflexivity.
Defined.

Lemma createFork_name_taken_witness :
  exists doc w' parent',
    run_at Scenario.name_taken "doc1" = (inl (DuplicateKey doc), w')
    /\ prop doc "documentId" = VStr "doc3"
    /\ sent w' = []
    /\ List.find (matches {| documentId := "doc1"; tenantId := "t1" |})
         (documents "documents" w') = Some parent'
    /\ prop parent' "forks" = VArr ([] ++ [fork_entry "t1" "doc3"]).
Proof.
  apply (createFork_name_taken Fixture.JSON_parse Fixture.JSON_stringify
           Fixture.Buffer_base64_utf8 "documents" "t1" "doc1" Scenario.name_taken
           (Fixture.root_record "t1" "doc1") []).
  - intros c. reflexivity.
  - exists "{sequenceNumber:42,minimumSequenceNumber:10}", Fixture.attributes_doc1.
    repeat split; vm_compute; congruence.
  - vm_compute. reflexivity.
  - vm_compute. reflexivity.
  - vm_compute. reflexivity.
Defined.

Lemma createFork_unsent_witness :
  exists sn msn w',
    run_at Scenario.producer_down "doc3"
    = (inl (Unavailable
              (CSend (Fixture.JSON_stringify
                        (integrateMessage "t1" "doc3" sn msn "hungry-cat" 1001))
                 "doc3")), w')
    /\ documents "documents" w' =
         update_first (matches {| documentId := "doc3"; tenantId := "t1" |})
           (apply_update None (Some [("forks", fork_entry "t1" "hungry-cat")]))
           (documents "documents" Scenario.producer_down
              ++ [fork_record "t1" "doc3" "hungry-cat" sn msn 1000])
    /\ sent w' = [].
Proof.
  apply (createFork_unsent Fixture.JSON_parse Fixture.JSON_stringify
           Fixture.Buffer_base64_utf8 "documents" "t1" "doc3" Scenario.producer_down).
  - intros c Hc. destruct c; try reflexivity. destruct (Hc message key eq_refl).
  - intros message key. reflexivity.
  - vm_compute. exact I.
  - vm_compute. reflexivity.
Defined.

Lemma createFork_twice_witness :
  "hungry-cat" <> "lazy-dog"
  /\ exists parent2,
      List.find (matches {| documentId := "doc1"; tenantId := "t1" |})
        (documents "documents" (run_at Fixture.forked_doc1 "doc1").2)
      = Some parent2
      /\ prop parent2 "forks"
         = VArr ([] ++ [fork_entry "t1" "hungry-cat"; fork_entry "t1" "lazy-dog"]).
Proof.
  apply (createFork_twice Fixture.JSON_parse Fixture.JSON_stringify
           Fixture.Buffer_base64_utf8 "documents" "t1" "doc1" Fixture.world0
           "hungry-cat" Fixture.forked_doc1 "lazy-dog"
           (run_at Fixture.forked_doc1 "doc1").2 (Fixture.root_record "t1" "doc1") []);
    vm_compute; reflexivity.
Defined.

Lemma createFork_then_getDocument_witness :
  exists record w2 w3,
    getDocument "documents" "t1" "hungry-cat" Fixture.forked_doc1 = (inr record, w2)
    /\ prop record "documentId" = VStr "hungry-cat"
    /\ prop record "forks" = VArr []
    /\ prop (prop record "parent") "documentId" = VStr "doc1"
    /\ getForks "documents" "t1" "hungry-cat" Fixture.forked_doc1
       = (inr (VArr []), w3).
Proof.
  apply (createFork_then_getDocument Fixture.JSON_parse Fixture.JSON_stringify
           Fixture.Buffer_base64_utf8 "documents" "t1" "doc1" Fixture.world0
           "hungry-cat" Fixture.forked_doc1).
  - vm_compute. reflexivity.
  - discriminate.
  - reflexivity.
Defined.

Lemma createFork_own_name_witness :
  List.find (matches {| documentId := "ghost"; tenantId := "t1" |})
    (documents "documents" Scenario.name_of_parent) = None
  /\ exists record,
      List.find (matches {| documentId := "ghost"; tenantId := "t1" |})
        (documents "documents" (run_at Scenario.name_of_parent "ghost").2)
      = Some record
      /\ prop record "documentId" = VStr "ghost"
      /\ prop (prop record "parent") "documentId" = VStr "ghost".
Proof.
  apply (createFork_own_name Fixture.JSON_parse Fixture.JSON_stringify
           Fixture.Buffer_base64_utf8 "documents" "t1" "ghost"
           Scenario.name_of_parent).
  vm_compute. reflexivity.
Defined.

Lemma getForks_recorded_witness :
  exists forks w',
    getForks "documents" "t1" "doc1" Fixture.world0 = (inr forks, w')
    /\ (forall items,
          prop (Fixture.root_record "t1" "doc1") "forks" = VArr items ->
          forks = VArr items)
    /\ (prop (Fixture.root_record "t1" "doc1") "forks" = VUndefined
        \/ prop (Fixture.root_record "t1" "doc1") "forks" = VNull ->
        forks = VArr []).
Proof.
  apply (getForks_recorded "documents" "t1" "doc1" Fixture.world0);
    vm_compute; reflexivity.
Defined.

Lemma getOrCreateDocument_existing_witness :
  existing (Build_FindOrCreate true (Fixture.root_record "t1" "doc1")) = true
  /\ found (Build_FindOrCreate true (Fixture.root_record "t1" "doc1"))
     = Fixture.root_record "t1" "doc1"
  /\ collections (getOrCreateDocument "documents" "t1" "doc1" Fixture.world0).2
     = collections Fixture.world0.
Proof.
  apply (getOrCreateDocument_existing "documents" "t1" "doc1" Fixture.world0);
    vm_compute; reflexivity.
Defined.

Lemma getOrCreateDocument_then_getDocument_witness :
  exists w2,
    getDocument "documents" "t1" "doc9"
      (getOrCreateDocument "documents" "t1" "doc9" Fixture.world0).2
    = (inr (default_record "t1" "doc9" 1000), w2).
Proof.
  apply (getOrCreateDocument_then_getDocument "documents" "t1" "doc9" Fixture.world0
           (Build_FindOrCreate false (default_record "t1" "doc9" 1000)));
    vm_compute; reflexivity.
Defined.

Lemma getLatestVersion_result_witness :
  getLatestVersion string Scenario.getCommits "t1" "doc1" Fixture.world0
  = (inr (Some "c0ffee"), record_call (CGetTenant "t1") Fixture.world0).
Proof.
  apply (getLatestVersion_result string Scenario.getCommits "t1" "doc1"
           Fixture.world0 (inr ["c0ffee"])); reflexivity.
Defined.

Lemma createFork_unresolved_witness :
  exists e w',
    run_at Scenario.git_down "doc1" = (inl e, w')
    /\ refs w' = refs Scenario.git_down /\ blobs w' = blobs Scenario.git_down
    /\ collections w' = collections Scenario.git_down
    /\ sent w' = sent Scenario.git_down.
Proof.
  apply (createFork_unresolved Fixture.JSON_parse Fixture.JSON_stringify
           Fixture.Buffer_base64_utf8 "documents" "t1" "doc1" Scenario.git_down).
  right. reflexivity.
Defined.

